(** * AI Panel, Perplexity content script: a shallow embedding

    Source: [src/content/perplexity.js].

    The script is a single-threaded, event-driven agent.  Every callback
    (message listener, mutation observer, timer continuation of an [async]
    function) runs to its next [await] inside one turn of the page's event
    loop.  A turn reads the outside world (clock, extension runtime, DOM)
    through a [World] record, read once per turn: a turn is short against
    the 500 ms between two samples, and the page, the clock and the
    extension context change between turns.  What the script keeps between
    turns is its two module-level variables and the local variables of
    suspended [async] activations. *)

From Stdlib Require Import ZArith NArith List String Bool Lia.
Import ListNotations.
Open Scope Z_scope.

(** ** JavaScript strings

    A JavaScript string is a sequence of UTF-16 code units; [length] of the
    list is the [.length] of the string and [===] is equality of the
    sequences. *)

Definition jsstring := list N.

Definition str (s : string) : jsstring :=
  map Ascii.N_of_ascii (list_ascii_of_string s).

Fixpoint jseqb (a b : jsstring) : bool :=
  match a, b with
  | [], [] => true
  | x :: a', y :: b' => N.eqb x y && jseqb a' b'
  | _, _ => false
  end.

(** WhiteSpace and LineTerminator code points of ECMAScript, the ones
    [String.prototype.trim] strips. *)
Definition isWhiteSpace (c : N) : bool :=
  ((9 <=? c) && (c <=? 13) || (c =? 32) || (c =? 160) || (c =? 5760)
   || (8192 <=? c) && (c <=? 8202) || (c =? 8232) || (c =? 8233)
   || (c =? 8239) || (c =? 8287) || (c =? 12288) || (c =? 65279))%N.

Fixpoint trimStart (s : jsstring) : jsstring :=
  match s with
  | c :: r => if isWhiteSpace c then trimStart r else s
  | [] => []
  end.

Definition trimEnd (s : jsstring) : jsstring := rev (trimStart (rev s)).

Definition trim (s : jsstring) : jsstring := trimEnd (trimStart s).

(** ** The page's DOM, as far as the script looks at it

    CSS matching is the browser's; the script only sees, per selector, the
    elements [querySelectorAll] returns, in document order. *)

Record Element := {
  el_id : nat;                         (* identity of the DOM node *)
  tagName : string;
  isContentEditable : bool;
  innerText : option jsstring          (* [None]: the property is undefined *)
}.

Record Document := { querySelectorAll : string -> list Element }.

Definition querySelector (doc : Document) (selector : string) : option Element :=
  hd_error (querySelectorAll doc selector).

(** Writes and synthetic events the script performs on the page. *)
Inductive DomOp :=
| Focus (el : Element)
| SetValue (el : Element) (text : jsstring)
| SetTextContent (el : Element) (text : jsstring)
| DispatchInput (el : Element)
| DispatchKeydownEnter (el : Element).

(** A node handed to the mutation observer. *)
Record Node := {
  nodeType : Z;
  matches : string -> bool;            (* node.matches(selector) *)
  hasDescendant : string -> bool       (* node.querySelector(selector) is not null *)
}.

Definition ELEMENT_NODE : Z := 1.

Record MutationRecord := {
  type_childList : bool;               (* mutation.type === 'childList' *)
  addedNodes : list Node
}.

(** ** What one turn observes of the outside *)

Record World := {
  Date_now : Z;
  chrome_runtime : bool;               (* chrome.runtime is defined *)
  chrome_runtime_id : bool;            (* chrome.runtime.id is a non-empty string *)
  sendMessage_throws : bool;           (* chrome.runtime.sendMessage would throw *)
  readyState_loading : bool;           (* document.readyState === 'loading' *)
  document : Document
}.

(** ** Messages *)

Definition AI_TYPE : string := "perplexity".

Inductive Message :=
| CONTENT_SCRIPT_READY (aiType : string)
| RESPONSE_CAPTURED (aiType : string) (content : jsstring).

Inductive Request :=
| INJECT_MESSAGE (message : jsstring)
| GET_LATEST_RESPONSE
| OTHER_REQUEST.

Inductive Response :=
| InjectResponse (success : bool) (error : option string)
| LatestResponse (content : option jsstring).

(** Lines 9-11. *)
Definition isContextValid (w : World) : bool :=
  chrome_runtime w && chrome_runtime_id w.

(** Lines 14-25.  The result is the list of messages that reached the
    background script: none when the context is invalid (line 15) and none
    when [sendMessage] throws, the exception being caught at line 22. *)
Definition safeSendMessage (w : World) (message : Message) : list Message :=
  if negb (isContextValid w) then []
  else if sendMessage_throws w then [] else [message].

(** ** Text extraction, lines 209-232 *)

(** The double quote, and the attribute selector [[name*="value"]]. *)
Definition dquote : string := String (Ascii.ascii_of_nat 34) EmptyString.

Definition attrContains (name value : string) : string :=
  ("[" ++ name ++ "*=" ++ dquote ++ value ++ dquote ++ "]")%string.

Definition responseTextSelectors : list string :=
  [ attrContains "class" "answer-container" ++ " " ++ attrContains "class" "prose";
    attrContains "class" "prose";
    "div" ++ attrContains "class" "DefaultAnswer";
    "div" ++ attrContains "class" "answer";
    "main div" ++ attrContains "class" "col" ++ " > div > div" ]%string.

(** Lines 221-224: [elements[elements.length - 1].innerText?.trim()] when
    [elements.length > 0]; [None] stands for "no element" and for an
    undefined [innerText] alike, both leave the selector without a text. *)
Definition lastElementText (elements : list Element) : option jsstring :=
  if (0 <? List.length elements)%nat then
    match nth_error elements (List.length elements - 1) with
    | Some lastElement => option_map trim (innerText lastElement)
    | None => None
    end
  else None.

(** Line 225: [text && text.length > 10]. *)
Definition acceptable (text : jsstring) : bool :=
  negb (jseqb text []) && (10 <? Z.of_nat (List.length text)).

Definition acceptedText (elements : list Element) : option jsstring :=
  match lastElementText elements with
  | Some text => if acceptable text then Some text else None
  | None => None
  end.

(** The loop of lines 219-229 over a list of selectors; line 231 when it
    runs out. *)
Fixpoint getLatestResponseIn (selectors : list string) (doc : Document)
  : option jsstring :=
  match selectors with
  | [] => None
  | selector :: rest =>
      match acceptedText (querySelectorAll doc selector) with
      | Some text => Some text
      | None => getLatestResponseIn rest doc
      end
  end.

Definition getLatestResponse (doc : Document) : option jsstring :=
  getLatestResponseIn responseTextSelectors doc.

(** ** Message injection, lines 49-96 *)

Definition inputSelectors : list string :=
  [ "textarea#ask-input";
    "textarea" ++ attrContains "placeholder" "問題";
    "textarea" ++ attrContains "placeholder" "question";
    "[contenteditable=" ++ dquote ++ "true" ++ dquote ++ "]#ask-input" ]%string.

(** The loop of lines 58-62: [inputEl] after the loop. *)
Fixpoint resolveInput (selectors : list string) (doc : Document)
  : option Element :=
  match selectors with
  | [] => None
  | selector :: rest =>
      match querySelector doc selector with
      | Some inputEl => Some inputEl
      | None => resolveInput rest doc
      end
  end.

(** How far the first turn of [injectMessage] gets: it throws at line 65,
    or it suspends at the [await sleep(200)] of line 81 holding [inputEl]. *)
Inductive InjectStart :=
| InjectThrew (message : string)
| InjectAwaiting (inputEl : Element).

(** Lines 50-81: the DOM operations performed, in order, and the outcome. *)
Definition injectMessage_begin (doc : Document) (text : jsstring)
  : list DomOp * InjectStart :=
  match resolveInput inputSelectors doc with
  | None => ([], InjectThrew "Could not find input field")
  | Some inputEl =>
      ([Focus inputEl] ++
       (if String.eqb (tagName inputEl) "TEXTAREA"
        then [SetValue inputEl text; DispatchInput inputEl]
        else if isContentEditable inputEl
        then [SetTextContent inputEl text; DispatchInput inputEl]
        else []),
       InjectAwaiting inputEl)
  end.

(** ** The sampling loop, lines 136-207 *)

Definition maxWait : Z := 600000.
Definition checkInterval : Z := 500.
Definition stableThreshold : nat := 4.

(** The module-level variables of lines 136-137. *)
Record Globals := {
  lastCapturedContent : jsstring;
  isCapturing : bool
}.

(** The locals of one activation of [waitForStreamingComplete]. *)
Record Session := {
  previousContent : jsstring;
  stableCount : nat;
  startTime : Z
}.

(** The ways the loop is left; each one is a normal return of the [async]
    function, through the [finally] of line 204. *)
Inductive Exit :=
| TimedOut            (* the condition of line 173 is false *)
| ContextInvalidated  (* line 176 *)
| Stabilised.         (* line 196 *)

Inductive Status :=
| Sleeping (s : Session)   (* suspended at the [await sleep] of line 179 *)
| Ended (e : Exit).

(** The effect of a turn of the loop: the globals afterwards, the messages
    that reached the background script, and where the activation stands. *)
Record Turn := {
  t_globals : Globals;
  t_sent : list Message;
  t_status : Status
}.

Definition setCapturing (b : bool) (g : Globals) : Globals :=
  {| lastCapturedContent := lastCapturedContent g; isCapturing := b |}.

Definition setLastCaptured (c : jsstring) (g : Globals) : Globals :=
  {| lastCapturedContent := c; isCapturing := isCapturing g |}.

(** Line 181: [getLatestResponse() || '']. *)
Definition currentContentOf (w : World) : jsstring :=
  match getLatestResponse (document w) with
  | Some text => if jseqb text [] then [] else text
  | None => []
  end.

(** Lines 173-179, from the loop condition to the [await]: [None] when the
    activation goes to sleep. *)
Definition loopHead (w : World) (s : Session) : option Exit :=
  if Date_now w - startTime s <? maxWait then
    if negb (isContextValid w) then Some ContextInvalidated else None
  else Some TimedOut.

(** Lines 181-202, from the sample to the end of the loop body.  The
    [finally] is not applied here. *)
Definition loopBody (w : World) (g : Globals) (s : Session) : Turn :=
  let currentContent := currentContentOf w in
  if jseqb currentContent (previousContent s)
     && (0 <? Z.of_nat (List.length currentContent)) then
    let stableCount' := S (stableCount s) in
    if (stableThreshold <=? stableCount')%nat then
      if negb (jseqb currentContent (lastCapturedContent g)) then
        {| t_globals := setLastCaptured currentContent g;
           t_sent := safeSendMessage w (RESPONSE_CAPTURED AI_TYPE currentContent);
           t_status := Ended Stabilised |}
      else
        {| t_globals := g; t_sent := []; t_status := Ended Stabilised |}
    else
      {| t_globals := g; t_sent := [];
         t_status := Sleeping {| previousContent := currentContent;
                                 stableCount := stableCount';
                                 startTime := startTime s |} |}
  else
    {| t_globals := g; t_sent := [];
       t_status := Sleeping {| previousContent := currentContent;
                               stableCount := 0;
                               startTime := startTime s |} |}.

(** Lines 204-206 applied to a turn that left the loop. *)
Definition finally (t : Turn) : Turn :=
  match t_status t with
  | Sleeping _ => t
  | Ended _ =>
      {| t_globals := setCapturing false (t_globals t);
         t_sent := t_sent t; t_status := t_status t |}
  end.

(** From one suspension to the next: the test of the loop condition and of
    the context, and the [await], for a session about to iterate. *)
Definition toNextSleep (w : World) (t : Turn) : Turn :=
  match t_status t with
  | Sleeping s =>
      match loopHead w s with
      | None => t
      | Some e => {| t_globals := t_globals t; t_sent := t_sent t;
                     t_status := Ended e |}
      end
  | Ended _ => t
  end.

(** The continuation of the [await sleep(checkInterval)] of line 179: the
    rest of the body, then the next loop head, in the turn [w]. *)
Definition resume (w : World) (g : Globals) (s : Session) : Turn :=
  finally (toNextSleep w (loopBody w g s)).

(** Lines 158-179: a call of [waitForStreamingComplete], up to its first
    suspension.  [None]: the call returned at line 161 without a session. *)
Definition waitForStreamingComplete (w : World) (g : Globals) : option Turn :=
  if isCapturing g then None
  else
    Some (finally (toNextSleep w
      {| t_globals := setCapturing true g; t_sent := [];
         t_status := Sleeping {| previousContent := [];
                                 stableCount := 0;
                                 startTime := Date_now w |} |})).

(** [sent] accumulated over the turns of one session. *)
Definition wake (w : World) (t : Turn) : Turn :=
  match t_status t with
  | Sleeping s =>
      let t' := resume w (t_globals t) s in
      {| t_globals := t_globals t'; t_sent := t_sent t ++ t_sent t';
         t_status := t_status t' |}
  | Ended _ => t
  end.

(** A session [start]ed by [waitForStreamingComplete], after the first [n]
    of its timers have fired; [tick k] is the world of the turn in which
    the [k]-th sleep (counted from 0) returns, and nothing else writes the
    globals meanwhile. *)
Fixpoint sessionAfter (start : Turn) (tick : nat -> World) (n : nat) : Turn :=
  match n with
  | O => start
  | S m => wake (tick m) (sessionAfter start tick m)
  end.

(** ** The whole agent *)

Record Agent := {
  globals : Globals;
  sessions : list Session;     (* activations suspended at line 179 *)
  injections : list Element;   (* activations suspended at line 81 *)
  observing : bool;            (* the MutationObserver is attached *)
  awaitingLoad : bool;         (* [startObserving] waits for DOMContentLoaded *)
  outbox : list Message;       (* messages that reached the background script *)
  responses : list Response;   (* arguments of [sendResponse], in order *)
  domLog : list DomOp          (* writes and events on the page, in order *)
}.

Definition withSession (a : Agent) (g : Globals) (ss : list Session)
  (sent : list Message) : Agent :=
  {| globals := g; sessions := ss; injections := injections a;
     observing := observing a; awaitingLoad := awaitingLoad a;
     outbox := outbox a ++ sent; responses := responses a;
     domLog := domLog a |}.

Definition withInjections (a : Agent) (inj : list Element)
  (rs : list Response) (ops : list DomOp) : Agent :=
  {| globals := globals a; sessions := sessions a; injections := inj;
     observing := observing a; awaitingLoad := awaitingLoad a;
     outbox := outbox a; responses := responses a ++ rs;
     domLog := domLog a ++ ops |}.

Definition withObserver (a : Agent) (obs awaiting : bool) : Agent :=
  {| globals := globals a; sessions := sessions a; injections := injections a;
     observing := obs; awaitingLoad := awaiting;
     outbox := outbox a; responses := responses a; domLog := domLog a |}.

Definition sleepers (st : Status) : list Session :=
  match st with
  | Sleeping s => [s]
  | Ended _ => []
  end.

(** A call of [waitForStreamingComplete()] made by the agent (lines 93 and
    152). *)
Definition startCapture (w : World) (a : Agent) : Agent :=
  match waitForStreamingComplete w (globals a) with
  | None => a
  | Some t =>
      withSession a (t_globals t) (sessions a ++ sleepers (t_status t))
        (t_sent t)
  end.

Definition responseSelectors : list string :=
  [ attrContains "class" "answer";
    attrContains "class" "response";
    attrContains "class" "result" ].

(** Lines 139-156. *)
Definition checkForResponse (w : World) (node : Node) (a : Agent) : Agent :=
  if isCapturing (globals a) then a
  else if existsb (fun selector => matches node selector
                                   || hasDescendant node selector)
            responseSelectors
  then startCapture w a
  else a.

(** Lines 107-115. *)
Definition checkAddedNodes (w : World) (mutation : MutationRecord) (a : Agent)
  : Agent :=
  if type_childList mutation then
    fold_left (fun acc node =>
                 if nodeType node =? ELEMENT_NODE
                 then checkForResponse w node acc else acc)
      (addedNodes mutation) a
  else a.

(** Lines 100-116: the observer's callback. *)
Definition observerCallback (w : World) (mutations : list MutationRecord)
  (a : Agent) : Agent :=
  if negb (isContextValid w) then withObserver a false (awaitingLoad a)
  else fold_left (fun acc mutation => checkAddedNodes w mutation acc)
         mutations a.

(** Lines 119-127. *)
Definition startObserving (w : World) (a : Agent) : Agent :=
  if negb (isContextValid w) then withObserver a (observing a) false
  else withObserver a true false.

(** Lines 31-44: the [onMessage] listener, with the first turn of
    [injectMessage] and the [then]/[catch] of lines 34-35. *)
Definition onMessage (w : World) (message : Request) (a : Agent) : Agent :=
  match message with
  | INJECT_MESSAGE text =>
      match injectMessage_begin (document w) text with
      | (ops, InjectThrew err) =>
          withInjections a (injections a)
            [InjectResponse false (Some err)] ops
      | (ops, InjectAwaiting inputEl) =>
          withInjections a (injections a ++ [inputEl]) [] ops
      end
  | GET_LATEST_RESPONSE =>
      withInjections a (injections a)
        [LatestResponse (getLatestResponse (document w))] []
  | OTHER_REQUEST => a
  end.

(** Lines 83-95, the continuation of the [await sleep(200)] held by the
    [i]-th suspended injection, then line 34. *)
Definition injectMessage_resume (w : World) (i : nat) (a : Agent) : Agent :=
  match nth_error (injections a) i with
  | None => a
  | Some inputEl =>
      let a1 := withInjections a (firstn i (injections a)
                                  ++ skipn (S i) (injections a))
                  [] [DispatchKeydownEnter inputEl] in
      let a2 := startCapture w a1 in
      withInjections a2 (injections a2) [InjectResponse true None] []
  end.

(** The continuation of the [await sleep(500)] held by the [i]-th suspended
    session. *)
Definition session_resume (w : World) (i : nat) (a : Agent) : Agent :=
  match nth_error (sessions a) i with
  | None => a
  | Some s =>
      let t := resume w (globals a) s in
      withSession a (t_globals t)
        (firstn i (sessions a) ++ sleepers (t_status t)
         ++ skipn (S i) (sessions a))
        (t_sent t)
  end.

(** What the event loop can run next. *)
Inductive Event :=
| OnMessage (message : Request)
| SettleElapsed (i : nat)
| IntervalElapsed (i : nat)
| MutationsObserved (mutations : list MutationRecord)
| DOMContentLoaded.

Definition step (a : Agent) (turn : World * Event) : Agent :=
  let (w, ev) := turn in
  match ev with
  | OnMessage message => onMessage w message a
  | SettleElapsed i => injectMessage_resume w i a
  | IntervalElapsed i => session_resume w i a
  | MutationsObserved mutations =>
      if observing a then observerCallback w mutations a else a
  | DOMContentLoaded =>
      if awaitingLoad a then startObserving w a else a
  end.

(** Lines 27-47 and 129-137: the script's own turn, when it is loaded. *)
Definition load (w : World) : Agent :=
  let a := {| globals := {| lastCapturedContent := []; isCapturing := false |};
              sessions := []; injections := [];
              observing := false; awaitingLoad := readyState_loading w;
              outbox := safeSendMessage w (CONTENT_SCRIPT_READY AI_TYPE);
              responses := []; domLog := [] |} in
  if readyState_loading w then a else startObserving w a.

Definition run (w0 : World) (turns : list (World * Event)) : Agent :=
  fold_left step turns (load w0).

(** The number of [RESPONSE_CAPTURED] messages in a list. *)
Definition captured (ms : list Message) : nat :=
  List.length (filter (fun m => match m with
                                | RESPONSE_CAPTURED _ _ => true
                                | _ => false
                                end) ms).

(** ** The extraction procedure as the specification words it

    "For the first candidate yielding at least one matching element, take
    the last matching element, extract its text, trim it, and accept it only
    if its length exceeds the minimum": the candidate is fixed by the first
    match, whatever its text. *)
Fixpoint firstMatching (selectors : list string) (doc : Document)
  : option (list Element) :=
  match selectors with
  | [] => None
  | selector :: rest =>
      match querySelectorAll doc selector with
      | [] => firstMatching rest doc
      | elements => Some elements
      end
  end.

Definition sampleOfFirstMatching (selectors : list string) (doc : Document)
  : option jsstring :=
  match firstMatching selectors doc with
  | Some elements => acceptedText elements
  | None => None
  end.

(** ** Concrete pages and worlds used by the examples *)

Definition textElement (text : jsstring) : Element :=
  {| el_id := 0; tagName := "DIV"; isContentEditable := false;
     innerText := Some text |}.

(** A page whose only answer-shaped element is one [[class*="prose"]] node
    rendering [text]. *)
Definition proseDocument (text : jsstring) : Document :=
  {| querySelectorAll := fun selector =>
       if String.eqb selector (attrContains "class" "prose")
       then [textElement text] else [] |}.

Definition emptyDocument : Document :=
  {| querySelectorAll := fun _ => [] |}.

(** A page with a short [div[class*="answer"]] heading and a long text
    under [main div[class*="col"] > div > div]. *)
Definition headingDocument : Document :=
  {| querySelectorAll := fun selector =>
       if String.eqb selector ("div" ++ attrContains "class" "answer")
       then [textElement (str "Answer")]
       else if String.eqb selector
                 ("main div" ++ attrContains "class" "col" ++ " > div > div")
       then [textElement (str "The answer is forty-two.")]
       else [] |}.

(** The world of a turn at time [t] with a live extension context. *)
Definition liveWorld (t : Z) (doc : Document) : World :=
  {| Date_now := t; chrome_runtime := true; chrome_runtime_id := true;
     sendMessage_throws := false; readyState_loading := false;
     document := doc |}.

(** The same with the extension context gone. *)
Definition deadWorld (t : Z) (doc : Document) : World :=
  {| Date_now := t; chrome_runtime := true; chrome_runtime_id := false;
     sendMessage_throws := true; readyState_loading := false;
     document := doc |}.

(** A live context whose message channel throws. *)
Definition brokenChannelWorld (t : Z) (doc : Document) : World :=
  {| Date_now := t; chrome_runtime := true; chrome_runtime_id := true;
     sendMessage_throws := true; readyState_loading := false;
     document := doc |}.

Definition freshGlobals : Globals :=
  {| lastCapturedContent := []; isCapturing := false |}.

(** The turn a fresh call of [waitForStreamingComplete] leaves behind at
    time 0 on [doc]. *)
Definition freshStart (g : Globals) (doc : Document) : Turn :=
  match waitForStreamingComplete (liveWorld 0 doc) g with
  | Some t => t
  | None => {| t_globals := g; t_sent := []; t_status := Ended Stabilised |}
  end.

(** Ticks every [checkInterval] over a page that renders [contents], one
    entry per tick, the last one from then on. *)
Definition streamTicks (contents : list jsstring) (k : nat) : World :=
  liveWorld (checkInterval * (Z.of_nat k + 1))
    (proseDocument (nth k contents (last contents []))).

(** The value of [previousContent] when the [k]-th sample is compared: the
    empty string of line 165 for the first one, the sample before it
    afterwards. *)
Definition previousSample (tick : nat -> World) (k : nat) : jsstring :=
  match k with
  | O => []
  | S j => currentContentOf (tick j)
  end.

(** The loop head that follows the sample of the turn [w] lets the session
    started at [t0] go on. *)
Definition goesOn (t0 : Z) (w : World) : Prop :=
  isContextValid w = true /\ Date_now w - t0 < maxWait.

(** The stream of the specification's scenario. *)
Definition abcStream : list jsstring :=
  [str ""; str "A"; str "AB"; str "ABC"; str "ABC"; str "ABC"; str "ABC";
   str "ABC"].

(** A stream of the same shape whose final text is long enough to be
    sampled. *)
Definition answerStream : list jsstring :=
  [str ""; str "The answer"; str "The answer is";
   str "The answer is forty-two."; str "The answer is forty-two.";
   str "The answer is forty-two."; str "The answer is forty-two.";
   str "The answer is forty-two."].

(** A text that is rendered from the first tick on. *)
Definition constantStream : list jsstring :=
  [str "The answer is forty-two."].

(** A running session holds the flag and has sent nothing; an ended one has
    released the flag and has sent at most one RESPONSE_CAPTURED. *)
Definition sessionInvariant (t : Turn) : Prop :=
  match t_status t with
  | Sleeping _ => t_sent t = [] /\ isCapturing (t_globals t) = true
  | Ended _ => (captured (t_sent t) <= 1)%nat
               /\ isCapturing (t_globals t) = false
  end.


(** Ticks every [checkInterval] over a page that keeps rendering [text];
    the extension context is gone from tick [deadFrom] on. *)
Definition invalidatedTicks (text : jsstring) (deadFrom : nat) (k : nat)
  : World :=
  if (k <? deadFrom)%nat
  then liveWorld (checkInterval * (Z.of_nat k + 1)) (proseDocument text)
  else deadWorld (checkInterval * (Z.of_nat k + 1)) (proseDocument text).

Definition answerText : jsstring := str "The answer is forty-two.".

(** The same ticks with a live context whose channel throws from tick
    [brokenFrom] on. *)
Definition brokenChannelTicks (text : jsstring) (brokenFrom : nat) (k : nat)
  : World :=
  if (k <? brokenFrom)%nat
  then liveWorld (checkInterval * (Z.of_nat k + 1)) (proseDocument text)
  else brokenChannelWorld (checkInterval * (Z.of_nat k + 1))
         (proseDocument text).

(** A session one repeat short of the threshold on [answerText]. *)
Definition almostStable : Session :=
  {| previousContent := answerText; stableCount := 3; startTime := 0 |}.

(** The number of sleeps of [checkInterval] that fit under [maxWait]. *)
Definition maxTicks : nat := Z.to_nat (maxWait / checkInterval).

(** [stableThreshold] consecutive samples, from the [k]-th on, are one
    non-empty text. *)
Definition stableWindow (tick : nat -> World) (k : nat) : Prop :=
  currentContentOf (tick k) <> [] /\
  forall i, (i < stableThreshold)%nat ->
    currentContentOf (tick (k + i)%nat) = currentContentOf (tick k).

(** Time elapsed since the turn [w0] when the sample of tick [k] is taken. *)
Definition elapsed (w0 : World) (tick : nat -> World) (k : nat) : Z :=
  Date_now (tick k) - Date_now w0.

(** A page that flips between two answers at every tick. *)
Definition flickerTicks (k : nat) : World :=
  liveWorld (checkInterval * (Z.of_nat k + 1))
    (proseDocument (if Nat.even k then str "The answer is forty-two."
                    else str "The answer is forty-three.")).

(** At most one activation of [waitForStreamingComplete] is suspended, and
    [isCapturing] tells whether there is one. *)
Definition exclusive (a : Agent) : Prop :=
  match sessions a with
  | [] => isCapturing (globals a) = false
  | [_] => isCapturing (globals a) = true
  | _ :: _ :: _ => False
  end.

(** A page with the [textarea#ask-input] of line 52 and one rendered
    answer. *)
Definition askInput : Element :=
  {| el_id := 1; tagName := "TEXTAREA"; isContentEditable := false;
     innerText := None |}.

Definition askDocument : Document :=
  {| querySelectorAll := fun selector =>
       if String.eqb selector "textarea#ask-input" then [askInput]
       else if String.eqb selector (attrContains "class" "prose")
       then [textElement answerText] else [] |}.

(** The agent is loaded, asked to inject a message, and the settle delay
    of line 81 elapses: a session is running. *)
Definition injectedTurns : list (World * Event) :=
  [ (liveWorld 100 askDocument, OnMessage (INJECT_MESSAGE (str "hello")));
    (liveWorld 300 askDocument, SettleElapsed 0) ].

(** A node the observer takes for an answer. *)
Definition answerNode : Node :=
  {| nodeType := ELEMENT_NODE;
     matches := fun selector =>
       String.eqb selector (attrContains "class" "answer");
     hasDescendant := fun _ => false |}.

(** Snapshot queries interleaved with ticks of the running session. *)
Definition queryTurns : list (World * Event) :=
  [ (liveWorld 400 askDocument, OnMessage GET_LATEST_RESPONSE);
    (liveWorld 800 askDocument, IntervalElapsed 0);
    (liveWorld 900 askDocument, OnMessage GET_LATEST_RESPONSE);
    (liveWorld 1300 askDocument, IntervalElapsed 0);
    (liveWorld 1400 askDocument, OnMessage GET_LATEST_RESPONSE) ].

(** A page with two rendered answers, the later one padded with white
    space. *)
Definition twoAnswersDocument : Document :=
  {| querySelectorAll := fun selector =>
       if String.eqb selector (attrContains "class" "prose")
       then [textElement (str "An earlier answer.");
             textElement (10%N :: 32%N :: str "The answer is forty-two.  ")]
       else [] |}.

(** Five ticks of the session started by [injectedTurns]. *)
Definition captureTurns : list (World * Event) :=
  [ (liveWorld 800 askDocument, IntervalElapsed 0);
    (liveWorld 1300 askDocument, IntervalElapsed 0);
    (liveWorld 1800 askDocument, IntervalElapsed 0);
    (liveWorld 2300 askDocument, IntervalElapsed 0);
    (liveWorld 2800 askDocument, IntervalElapsed 0) ].

(** The first [n] timers of the one running session fire, in the worlds
    [tick 0 .. tick (n - 1)], and nothing else happens. *)
Definition tickTurns (tick : nat -> World) (n : nat) : list (World * Event) :=
  map (fun k => (tick k, IntervalElapsed 0)) (seq 0 n).

(** ** Vocabulary of the properties beyond the sampling loop *)

(** INJECT_MESSAGE requests among the turns, and answers to them among the
    responses. *)
Definition isInjectRequest (turn : World * Event) : bool :=
  match snd turn with
  | OnMessage (INJECT_MESSAGE _) => true
  | _ => false
  end.

Definition injectRequests (turns : list (World * Event)) : nat :=
  List.length (filter isInjectRequest turns).

Definition isInjectResponse (r : Response) : bool :=
  match r with
  | InjectResponse _ _ => true
  | LatestResponse _ => false
  end.

Definition injectResponses (rs : list Response) : nat :=
  List.length (filter isInjectResponse rs).

(** The Enter key is dispatched only on an element focused earlier. *)
Definition enterFollowsFocus (log : list DomOp) : Prop :=
  forall l1 el l2,
    log = l1 ++ DispatchKeydownEnter el :: l2 -> In (Focus el) l1.

(** The contents of the RESPONSE_CAPTURED messages of a list, in order. *)
Fixpoint capturedContents (ms : list Message) : list jsstring :=
  match ms with
  | [] => []
  | RESPONSE_CAPTURED _ c :: rest => c :: capturedContents rest
  | CONTENT_SCRIPT_READY _ :: rest => capturedContents rest
  end.

Fixpoint adjacentDistinct (l : list jsstring) : Prop :=
  match l with
  | x :: rest =>
      match rest with
      | y :: _ => x <> y /\ adjacentDistinct rest
      | [] => True
      end
  | [] => True
  end.

(** The context is valid and the channel works. *)
Definition healthy (w : World) : bool :=
  isContextValid w && negb (sendMessage_throws w).

(** Neither the first nor the last code unit is white space. *)
Definition noOuterWhiteSpace (s : jsstring) : Prop :=
  match s with
  | [] => True
  | c :: _ => isWhiteSpace c = false /\ isWhiteSpace (last s c) = false
  end.

(** What makes the observer start a capture: an added element node that
    matches, or contains a match of, one of [responseSelectors], in a
    childList mutation (lines 108-111 and 149-150). *)
Definition nodeTriggers (node : Node) : bool :=
  (nodeType node =? ELEMENT_NODE)
  && existsb (fun selector => matches node selector
                              || hasDescendant node selector)
       responseSelectors.

Definition mutationTriggers (mutation : MutationRecord) : bool :=
  type_childList mutation && existsb nodeTriggers (addedNodes mutation).

(** Every write of a value or of a text content is immediately followed by
    the synthetic input event on the same element. *)
Definition writesNotified (log : list DomOp) : Prop :=
  forall l1 op l2, log = l1 ++ op :: l2 ->
    match op with
    | SetValue el _ | SetTextContent el _ =>
        exists l2', l2 = DispatchInput el :: l2'
    | _ => True
    end.

(** A childList mutation that adds [answerNode] after a text node. *)
Definition textNode : Node :=
  {| nodeType := 3; matches := fun _ => false; hasDescendant := fun _ => false |}.

Definition answerMutations : list MutationRecord :=
  [ {| type_childList := false; addedNodes := [answerNode] |};
    {| type_childList := true; addedNodes := [textNode; answerNode; answerNode] |} ].

(** The session a call of [waitForStreamingComplete] leaves suspended in
    the turn [w]. *)
Definition newSession (w : World) : Session :=
  {| previousContent := []; stableCount := 0; startTime := Date_now w |}.

(** A long healthy day: a message is injected and captured, then the
    observer sees an answer node again and a second session runs on the
    unchanged page. *)
Definition repeatedCaptureTurns : list (World * Event) :=
  injectedTurns ++ captureTurns
  ++ [ (liveWorld 5000 askDocument, MutationsObserved answerMutations);
       (liveWorld 5500 askDocument, IntervalElapsed 0);
       (liveWorld 6000 askDocument, IntervalElapsed 0);
       (liveWorld 6500 askDocument, IntervalElapsed 0);
       (liveWorld 7000 askDocument, IntervalElapsed 0);
       (liveWorld 7500 askDocument, IntervalElapsed 0) ].

(** A page whose input is the content-editable [#ask-input] of line 55. *)
Definition editableInput : Element :=
  {| el_id := 2; tagName := "DIV"; isContentEditable := true;
     innerText := Some [] |}.

Definition editableDocument : Document :=
  {| querySelectorAll := fun selector =>
       if String.eqb selector
            ("[contenteditable=" ++ dquote ++ "true" ++ dquote ++ "]#ask-input")
       then [editableInput] else [] |}.

(** A page that flickers like [flickerTicks], seen by timers that fire
    late, every 250 s. *)
Definition lateTicks (k : nat) : World :=
  liveWorld (250000 * (Z.of_nat k + 1))
    (proseDocument (if Nat.even k then str "The answer is forty-two."
                    else str "The answer is forty-three.")).

(** [elements[elements.length - 1]], when there is one. *)
Definition lastOf (elements : list Element) : option Element :=
  nth_error elements (List.length elements - 1).
(** ** Strings and extraction *)

Lemma jseqb_refl (a : jsstring) : jseqb a a = true.
Proof.
  induction a as [|x a IH]; simpl; [reflexivity|].
  now rewrite N.eqb_refl, IH.
Qed.

Lemma jseqb_eq (a b : jsstring) : jseqb a b = true <-> a = b.
Proof.
  split.
  - revert b; induction a as [|x a IH]; intros [|y b]; simpl; try discriminate.
    + reflexivity.
    + intros H. apply andb_true_iff in H as [Hx Hr].
      apply N.eqb_eq in Hx. apply IH in Hr. now subst.
  - intros ->. apply jseqb_refl.
Qed.

Lemma jseqb_neq (a b : jsstring) : jseqb a b = false <-> a <> b.
Proof.
  rewrite <- jseqb_eq. destruct (jseqb a b); split; congruence.
Qed.

Lemma acceptedText_Some (elements : list Element) (text : jsstring) :
  acceptedText elements = Some text <->
  exists front lastElement raw,
    elements = front ++ [lastElement] /\
    innerText lastElement = Some raw /\
    text = trim raw /\ (10 < List.length text)%nat.
Proof.
  unfold acceptedText, lastElementText, acceptable. split.
  - destruct (0 <? List.length elements)%nat eqn:Hlen; [|discriminate].
    apply Nat.ltb_lt in Hlen.
    destruct (exists_last (l := elements)) as (front & e & ->).
    { intros ->. simpl in Hlen. lia. }
    rewrite length_app, Nat.add_sub. simpl List.length.
    rewrite nth_error_app2, Nat.sub_diag by lia. simpl.
    destruct (innerText e) as [raw|] eqn:Hraw; simpl; [|discriminate].
    destruct (negb (jseqb (trim raw) [])); simpl; [|discriminate].
    destruct (10 <? Z.of_nat (List.length (trim raw))) eqn:Hlong; [|discriminate].
    intros [= <-]. exists front, e, raw. apply Z.ltb_lt in Hlong.
    repeat split; auto; lia.
  - intros (front & e & raw & -> & Hraw & -> & Hlong).
    rewrite length_app. simpl List.length.
    replace (0 <? List.length front + 1)%nat with true
      by (symmetry; apply Nat.ltb_lt; lia).
    rewrite Nat.add_sub, nth_error_app2, Nat.sub_diag by lia. simpl.
    rewrite Hraw. simpl.
    replace (jseqb (trim raw) []) with false.
    2:{ symmetry. apply jseqb_neq. intros E. rewrite E in Hlong. simpl in Hlong. lia. }
    replace (10 <? Z.of_nat (List.length (trim raw))) with true
      by (symmetry; apply Z.ltb_lt; lia).
    reflexivity.
Qed.

Lemma acceptedText_nil : acceptedText [] = None.
Proof. reflexivity. Qed.

Lemma getLatestResponseIn_Some (selectors : list string) (doc : Document)
  (text : jsstring) :
  getLatestResponseIn selectors doc = Some text <->
  exists before selector after,
    selectors = before ++ selector :: after /\
    Forall (fun s => acceptedText (querySelectorAll doc s) = None) before /\
    acceptedText (querySelectorAll doc selector) = Some text.
Proof.
  induction selectors as [|s rest IH]; simpl.
  - split; [discriminate|]. intros (b & x & a & H & _). now destruct b.
  - destruct (acceptedText (querySelectorAll doc s)) as [t|] eqn:Hs.
    + split.
      * intros [= <-]. exists [], s, rest. repeat split; auto.
      * intros (b & x & a & E & Hb & Hx). destruct b as [|s' b]; simpl in E.
        -- injection E as <- <-. congruence.
        -- injection E as <- ->. inversion Hb; congruence.
    + rewrite IH. split.
      * intros (b & x & a & -> & Hb & Hx). exists (s :: b), x, a.
        repeat split; auto.
      * intros (b & x & a & E & Hb & Hx). destruct b as [|s' b]; simpl in E.
        -- injection E as <- <-. congruence.
        -- injection E as <- ->. inversion Hb; subst. now exists b, x, a.
Qed.

Lemma getLatestResponseIn_None (selectors : list string) (doc : Document) :
  getLatestResponseIn selectors doc = None <->
  Forall (fun s => acceptedText (querySelectorAll doc s) = None) selectors.
Proof.
  induction selectors as [|s rest IH]; simpl.
  - split; auto.
  - destruct (acceptedText (querySelectorAll doc s)) eqn:Hs.
    + split; [discriminate|]. intros H. inversion H; congruence.
    + rewrite IH. split; [auto|]. intros H. now inversion H.
Qed.

Lemma resolveInput_Some (selectors : list string) (doc : Document)
  (el : Element) :
  resolveInput selectors doc = Some el <->
  exists before selector after,
    selectors = before ++ selector :: after /\
    Forall (fun s => querySelectorAll doc s = []) before /\
    hd_error (querySelectorAll doc selector) = Some el.
Proof.
  unfold querySelector.
  induction selectors as [|s rest IH]; simpl.
  - split; [discriminate|]. intros (b & x & a & H & _). now destruct b.
  - unfold querySelector.
    destruct (querySelectorAll doc s) as [|e es] eqn:Hs; simpl.
    + rewrite IH. split.
      * intros (b & x & a & -> & Hb & Hx). exists (s :: b), x, a.
        repeat split; auto.
      * intros (b & x & a & E & Hb & Hx). destruct b as [|s' b]; simpl in E.
        -- injection E as <- <-. rewrite Hs in Hx. discriminate.
        -- injection E as <- ->. inversion Hb; subst. now exists b, x, a.
    + split.
      * intros [= <-]. exists [], s, rest. rewrite Hs. repeat split; auto.
      * intros (b & x & a & E & Hb & Hx). destruct b as [|s' b]; simpl in E.
        -- injection E as <- <-. rewrite Hs in Hx. exact Hx.
        -- injection E as <- ->. inversion Hb; congruence.
Qed.

Lemma resolveInput_None (selectors : list string) (doc : Document) :
  resolveInput selectors doc = None <->
  Forall (fun s => querySelectorAll doc s = []) selectors.
Proof.
  induction selectors as [|s rest IH]; simpl.
  - split; auto.
  - unfold querySelector.
    destruct (querySelectorAll doc s) as [|e es] eqn:Hs; simpl.
    + rewrite IH. split; [auto|]. intros H. now inversion H.
    + split; [discriminate|]. intros H. inversion H; congruence.
Qed.

Lemma sampleOfFirstMatching_sound (selectors : list string) (doc : Document)
  (text : jsstring) :
  sampleOfFirstMatching selectors doc = Some text ->
  getLatestResponseIn selectors doc = Some text.
Proof.
  unfold sampleOfFirstMatching.
  induction selectors as [|s rest IH]; simpl; [discriminate|].
  destruct (querySelectorAll doc s) as [|e es] eqn:Hs.
  - rewrite acceptedText_nil. exact IH.
  - intros H. now rewrite H.
Qed.

Lemma getLatestResponse_long (doc : Document) (text : jsstring) :
  getLatestResponse doc = Some text -> (10 < List.length text)%nat.
Proof.
  unfold getLatestResponse. intros H.
  apply getLatestResponseIn_Some in H as (b & s & a & _ & _ & H).
  apply acceptedText_Some in H as (f & e & raw & _ & _ & _ & H). exact H.
Qed.

(** ** Selector priority *)

(** C6, as stated, fails.  On a page whose first matching answer candidate,
    [div[class*="answer"]], ends in the short heading "Answer", the
    procedure of the specification settles on that candidate and gives no
    sample, while [getLatestResponse] goes on to the next candidate and
    returns its text: the element it chose is not the last element of the
    first candidate that matches. *)
Lemma first_matching_candidate_not_final :
  firstMatching responseTextSelectors headingDocument
  = Some [textElement (str "Answer")] /\
  sampleOfFirstMatching responseTextSelectors headingDocument = None /\
  getLatestResponse headingDocument = Some (str "The answer is forty-two.") /\
  getLatestResponse headingDocument
  <> sampleOfFirstMatching responseTextSelectors headingDocument.
Proof.
  assert (H0 : firstMatching responseTextSelectors headingDocument
               = Some [textElement (str "Answer")])
    by (vm_compute; reflexivity).
  assert (H1 : sampleOfFirstMatching responseTextSelectors headingDocument = None)
    by (vm_compute; reflexivity).
  assert (H2 : getLatestResponse headingDocument
               = Some (str "The answer is forty-two."))
    by (vm_compute; reflexivity).
  repeat split; auto. rewrite H1, H2. discriminate.
Qed.

(** C6, amended.  For every candidate list and every page: input resolution
    returns the first element of the first candidate, in priority order,
    that matches anything, and nothing exactly when no candidate matches;
    text extraction returns the trimmed text of the last element of the
    first candidate whose last element has a trimmed text longer than 10
    code units, candidates that match but end in a shorter or undefined text
    being passed over, and null exactly when no candidate has such a text.
    When the first matching candidate itself has an acceptable text, that
    text is the result. *)
Theorem selector_priority_law (selectors : list string) (doc : Document) :
  (forall el,
     resolveInput selectors doc = Some el <->
     exists before selector after,
       selectors = before ++ selector :: after /\
       Forall (fun s => querySelectorAll doc s = []) before /\
       hd_error (querySelectorAll doc selector) = Some el) /\
  (resolveInput selectors doc = None <->
   Forall (fun s => querySelectorAll doc s = []) selectors) /\
  (forall text,
     getLatestResponseIn selectors doc = Some text <->
     exists before selector after front lastElement raw,
       selectors = before ++ selector :: after /\
       Forall (fun s => acceptedText (querySelectorAll doc s) = None) before /\
       querySelectorAll doc selector = front ++ [lastElement] /\
       innerText lastElement = Some raw /\
       text = trim raw /\ (10 < List.length text)%nat) /\
  (getLatestResponseIn selectors doc = None <->
   Forall (fun s => acceptedText (querySelectorAll doc s) = None) selectors) /\
  (forall text,
     sampleOfFirstMatching selectors doc = Some text ->
     getLatestResponseIn selectors doc = Some text).
Proof.
  split; [intros el; apply resolveInput_Some|].
  split; [apply resolveInput_None|].
  split.
  - intros text. rewrite getLatestResponseIn_Some. split.
    + intros (b & s & a & E & Hb & Hs).
      apply acceptedText_Some in Hs as (f & e & raw & Hq & Hraw & Ht & Hl).
      now exists b, s, a, f, e, raw.
    + intros (b & s & a & f & e & raw & E & Hb & Hq & Hraw & Ht & Hl).
      exists b, s, a. repeat split; auto.
      apply acceptedText_Some. now exists f, e, raw.
  - split; [apply getLatestResponseIn_None|].
    intros text. apply sampleOfFirstMatching_sound.
Qed.

(** ** Injection failure *)

(** C5.  On a page where no input candidate matches, the first turn of
    [injectMessage] throws "Could not find input field" without any DOM
    operation, and the listener answers the INJECT_MESSAGE request with
    [{success: false, error: "Could not find input field"}]; the agent is
    otherwise unchanged: nothing is written to or dispatched on the page,
    no continuation is left that could do so later, no session is started
    and no message is sent. *)
Theorem inject_without_input_fails (w : World) (text : jsstring) (a : Agent) :
  Forall (fun s => querySelectorAll (document w) s = []) inputSelectors ->
  injectMessage_begin (document w) text
  = ([], InjectThrew "Could not find input field") /\
  let a' := onMessage w (INJECT_MESSAGE text) a in
  responses a'
  = responses a ++ [InjectResponse false (Some "Could not find input field"%string)] /\
  domLog a' = domLog a /\
  injections a' = injections a /\
  sessions a' = sessions a /\
  globals a' = globals a /\
  outbox a' = outbox a.
Proof.
  intros Hnone. apply resolveInput_None in Hnone.
  assert (E : injectMessage_begin (document w) text
              = ([], InjectThrew "Could not find input field")).
  { unfold injectMessage_begin. now rewrite Hnone. }
  split; [exact E|].
  unfold onMessage. rewrite E. simpl.
  repeat split; auto. apply app_nil_r.
Qed.

Lemma inject_without_input_fails_witness :
  responses (onMessage (liveWorld 0 emptyDocument)
               (INJECT_MESSAGE (str "hello")) (load (liveWorld 0 emptyDocument)))
  = [InjectResponse false (Some "Could not find input field"%string)].
Proof.
  pose proof (inject_without_input_fails (liveWorld 0 emptyDocument)
                (str "hello") (load (liveWorld 0 emptyDocument))) as H.
  destruct H as (_ & H & _).
  - repeat constructor.
  - exact H.
Defined.

(** ** One turn of the sampling loop *)

Lemma currentContentOf_Some (w : World) (c : jsstring) :
  getLatestResponse (document w) = Some c -> currentContentOf w = c.
Proof.
  unfold currentContentOf. intros ->.
  destruct (jseqb c []) eqn:E; [|reflexivity].
  apply jseqb_eq in E. now subst.
Qed.

Lemma currentContentOf_cases (w : World) :
  currentContentOf w = [] \/
  (getLatestResponse (document w) = Some (currentContentOf w) /\
   (10 < List.length (currentContentOf w))%nat).
Proof.
  destruct (getLatestResponse (document w)) as [c|] eqn:E.
  - right. rewrite (currentContentOf_Some w c E).
    split; [reflexivity|]. now apply getLatestResponse_long in E.
  - left. unfold currentContentOf. now rewrite E.
Qed.

Lemma nonempty_length (c : jsstring) :
  c <> [] -> (0 <? Z.of_nat (List.length c)) = true.
Proof. destruct c; [congruence|]. intros _. apply Z.ltb_lt. simpl. lia. Qed.

Lemma loopHead_pass (w : World) (s : Session) :
  isContextValid w = true -> Date_now w - startTime s < maxWait ->
  loopHead w s = None.
Proof.
  intros Hv Ht. unfold loopHead. rewrite Hv.
  apply Z.ltb_lt in Ht. now rewrite Ht.
Qed.

Lemma loopHead_invalid (w : World) (s : Session) :
  isContextValid w = false -> exists e, loopHead w s = Some e.
Proof.
  intros Hv. unfold loopHead. rewrite Hv.
  destruct (Date_now w - startTime s <? maxWait); simpl; eauto.
Qed.

Ltac projections :=
  cbn [t_status t_globals t_sent previousContent stableCount startTime
       lastCapturedContent isCapturing].

Section OneTurn.
Variables (w : World) (g : Globals) (sent : list Message).
Variables (prev : jsstring) (count : nat) (t0 : Z).

Let before : Turn :=
  {| t_globals := g; t_sent := sent;
     t_status := Sleeping {| previousContent := prev; stableCount := count;
                             startTime := t0 |} |}.

Lemma wake_reset :
  currentContentOf w <> prev \/ currentContentOf w = [] ->
  isContextValid w = true -> Date_now w - t0 < maxWait ->
  wake w before
  = {| t_globals := g; t_sent := sent;
       t_status := Sleeping {| previousContent := currentContentOf w;
                               stableCount := 0; startTime := t0 |} |}.
Proof.
  intros Hc Hv Ht. unfold before, wake, resume, loopBody. projections.
  assert (E : jseqb (currentContentOf w) prev
              && (0 <? Z.of_nat (List.length (currentContentOf w))) = false).
  { destruct Hc as [Hc|Hc].
    - apply jseqb_neq in Hc. now rewrite Hc.
    - rewrite Hc. simpl. apply andb_false_r. }
  rewrite E. unfold toNextSleep. projections.
  rewrite loopHead_pass by (projections; auto).
  unfold finally. projections. now rewrite app_nil_r.
Qed.

Lemma wake_repeat :
  currentContentOf w = prev -> prev <> [] ->
  (S count < stableThreshold)%nat ->
  isContextValid w = true -> Date_now w - t0 < maxWait ->
  wake w before
  = {| t_globals := g; t_sent := sent;
       t_status := Sleeping {| previousContent := prev;
                               stableCount := S count; startTime := t0 |} |}.
Proof.
  intros Hc Hne Hcount Hv Ht. unfold before, wake, resume, loopBody.
  projections.
  rewrite Hc, jseqb_refl, nonempty_length by assumption. cbn [andb].
  replace (stableThreshold <=? S count)%nat with false
    by (symmetry; apply Nat.leb_gt; lia).
  unfold toNextSleep. projections.
  rewrite loopHead_pass by (projections; auto).
  unfold finally. projections. now rewrite app_nil_r.
Qed.

Lemma wake_stable :
  currentContentOf w = prev -> prev <> [] ->
  (stableThreshold <= S count)%nat ->
  wake w before
  = {| t_globals :=
         setCapturing false
           (if jseqb prev (lastCapturedContent g) then g
            else setLastCaptured prev g);
       t_sent :=
         sent ++ (if jseqb prev (lastCapturedContent g) then []
                  else safeSendMessage w (RESPONSE_CAPTURED AI_TYPE prev));
       t_status := Ended Stabilised |}.
Proof.
  intros Hc Hne Hcount. unfold before, wake, resume, loopBody.
  projections.
  rewrite Hc, jseqb_refl, nonempty_length by assumption. cbn [andb].
  replace (stableThreshold <=? S count)%nat with true
    by (symmetry; apply Nat.leb_le; lia).
  destruct (jseqb prev (lastCapturedContent g)); reflexivity.
Qed.

(** In a turn that finds the context invalid the session ends, whatever
    the sample, and nothing is sent. *)
Lemma wake_invalid :
  isContextValid w = false ->
  exists e,
    t_status (wake w before) = Ended e /\
    t_sent (wake w before) = sent /\
    isCapturing (t_globals (wake w before)) = false.
Proof.
  intros Hv. unfold before, wake, resume, loopBody, safeSendMessage.
  projections. rewrite Hv. cbn [negb].
  destruct (jseqb (currentContentOf w) prev
            && (0 <? Z.of_nat (List.length (currentContentOf w)))).
  - destruct (stableThreshold <=? S count)%nat.
    + destruct (negb (jseqb (currentContentOf w) (lastCapturedContent g)));
        simpl; exists Stabilised; rewrite app_nil_r; auto.
    + unfold toNextSleep. projections.
      destruct (loopHead_invalid w
                  {| previousContent := currentContentOf w;
                     stableCount := S count; startTime := t0 |} Hv) as [e He].
      rewrite He. simpl. exists e. rewrite app_nil_r. auto.
  - unfold toNextSleep. projections.
    destruct (loopHead_invalid w
                {| previousContent := currentContentOf w;
                   stableCount := 0; startTime := t0 |} Hv) as [e He].
    rewrite He. simpl. exists e. rewrite app_nil_r. auto.
Qed.
End OneTurn.

Lemma waitForStreamingComplete_starts (w : World) (g : Globals) :
  isCapturing g = false -> isContextValid w = true ->
  waitForStreamingComplete w g
  = Some {| t_globals := setCapturing true g; t_sent := [];
            t_status := Sleeping {| previousContent := []; stableCount := 0;
                                    startTime := Date_now w |} |}.
Proof.
  intros Hc Hv. unfold waitForStreamingComplete. rewrite Hc.
  unfold toNextSleep. simpl.
  rewrite loopHead_pass; simpl; auto.
  rewrite Z.sub_diag. reflexivity.
Qed.

Lemma wake_ended (w : World) (t : Turn) (e : Exit) :
  t_status t = Ended e -> wake w t = t.
Proof. intros H. unfold wake. now rewrite H. Qed.

Lemma sessionAfter_ended (start : Turn) (tick : nat -> World) (n m : nat)
  (e : Exit) :
  t_status (sessionAfter start tick n) = Ended e -> (n <= m)%nat ->
  sessionAfter start tick m = sessionAfter start tick n.
Proof.
  intros He Hle. induction Hle as [|m Hle IH]; [reflexivity|].
  simpl. rewrite IH. now apply wake_ended with e.
Qed.

(** ** Whole sessions *)

Section Session.
Variables (w0 : World) (g : Globals) (tick : nat -> World).
Hypothesis idle : isCapturing g = false.
Hypothesis valid0 : isContextValid w0 = true.

Let start : Turn :=
  {| t_globals := setCapturing true g; t_sent := [];
     t_status := Sleeping {| previousContent := []; stableCount := 0;
                             startTime := Date_now w0 |} |}.

Let sleepingWith (prev : jsstring) (count : nat) : Turn :=
  {| t_globals := setCapturing true g; t_sent := [];
     t_status := Sleeping {| previousContent := prev; stableCount := count;
                             startTime := Date_now w0 |} |}.

(** While every sample differs from the one before it, or is empty, the
    count stays at zero. *)
Lemma changing_phase (n : nat) :
  (forall k, (k < n)%nat ->
     (currentContentOf (tick k) <> previousSample tick k
      \/ currentContentOf (tick k) = [])
     /\ goesOn (Date_now w0) (tick k)) ->
  sessionAfter start tick n = sleepingWith (previousSample tick n) 0.
Proof.
  induction n as [|n IH]; intros H; [reflexivity|].
  simpl sessionAfter. rewrite IH by (intros k Hk; apply H; lia).
  destruct (H n) as (Hc & Hv & Ht); [lia|].
  unfold sleepingWith. now rewrite wake_reset.
Qed.

(** Once the sample repeats a non-empty text, the count grows by one per
    tick until it reaches the threshold. *)
Lemma stable_phase (n : nat) (c : jsstring) :
  sessionAfter start tick n = sleepingWith c 0 -> c <> [] ->
  (forall k, (n <= k < n + stableThreshold)%nat ->
     currentContentOf (tick k) = c) ->
  (forall k, (n <= k < n + stableThreshold - 1)%nat ->
     goesOn (Date_now w0) (tick k)) ->
  (forall j, (j < stableThreshold)%nat ->
     sessionAfter start tick (n + j) = sleepingWith c j) /\
  sessionAfter start tick (n + stableThreshold)
  = {| t_globals :=
         setCapturing false
           (if jseqb c (lastCapturedContent g) then setCapturing true g
            else setLastCaptured c (setCapturing true g));
       t_sent :=
         (if jseqb c (lastCapturedContent g) then []
          else safeSendMessage (tick (n + stableThreshold - 1)%nat)
                 (RESPONSE_CAPTURED AI_TYPE c));
       t_status := Ended Stabilised |}.
Proof.
  intros Hn Hne Hc Hv.
  assert (Hj : forall j, (j < stableThreshold)%nat ->
                 sessionAfter start tick (n + j) = sleepingWith c j).
  { induction j as [|j IH]; intros Hlt.
    - now rewrite Nat.add_0_r.
    - rewrite Nat.add_succ_r. simpl sessionAfter. rewrite IH by lia.
      destruct (Hv (n + j)%nat) as (Hv' & Ht'); [lia|].
      unfold sleepingWith. apply wake_repeat; auto. apply Hc. lia. }
  split; [exact Hj|].
  replace (n + stableThreshold)%nat with (S (n + (stableThreshold - 1)))
    by (unfold stableThreshold; lia).
  simpl sessionAfter. rewrite Hj by (unfold stableThreshold; lia).
  replace (S (n + (stableThreshold - 1)) - 1)%nat
    with (n + (stableThreshold - 1))%nat by lia.
  unfold sleepingWith.
  rewrite wake_stable; auto; try apply Hc; unfold stableThreshold; lia.
Qed.
End Session.

(** No message a session sends carries a text of 10 code units or less:
    what the loop compares and sends went through [getLatestResponse]. *)
Lemma wake_sends_long (w : World) (t : Turn) :
  Forall (fun m => forall a c, m = RESPONSE_CAPTURED a c ->
                               (10 < List.length c)%nat) (t_sent t) ->
  Forall (fun m => forall a c, m = RESPONSE_CAPTURED a c ->
                               (10 < List.length c)%nat) (t_sent (wake w t)).
Proof.
  intros H. unfold wake. destruct (t_status t) as [s|e]; [|exact H].
  projections. apply Forall_app. split; [exact H|].
  unfold resume, loopBody.
  destruct (jseqb (currentContentOf w) (previousContent s)
            && (0 <? Z.of_nat (List.length (currentContentOf w)))) eqn:E.
  2:{ unfold toNextSleep, finally. projections.
      destruct (loopHead w _); projections; constructor. }
  destruct (stableThreshold <=? S (stableCount s))%nat.
  2:{ unfold toNextSleep, finally. projections.
      destruct (loopHead w _); projections; constructor. }
  destruct (negb (jseqb (currentContentOf w) (lastCapturedContent (t_globals t)))).
  2:{ unfold toNextSleep, finally. projections. constructor. }
  unfold toNextSleep, finally. projections.
  unfold safeSendMessage.
  destruct (negb (isContextValid w)); [constructor|].
  destruct (sendMessage_throws w); constructor; [|constructor].
  intros a c [= _ <-].
  apply andb_true_iff in E as [_ E]. apply Z.ltb_lt in E.
  destruct (currentContentOf_cases w) as [H0|[_ Hl]]; [|exact Hl].
  rewrite H0 in E. simpl in E. lia.
Qed.

Lemma session_sends_long (start : Turn) (tick : nat -> World) (n : nat) :
  t_sent start = [] ->
  Forall (fun m => forall a c, m = RESPONSE_CAPTURED a c ->
                               (10 < List.length c)%nat)
    (t_sent (sessionAfter start tick n)).
Proof.
  intros H0. induction n as [|n IH]; simpl.
  - rewrite H0. constructor.
  - now apply wake_sends_long.
Qed.

(** ** The stability law *)

(** C1, as stated, fails.  On a page that renders "", "A", "AB" and then
    "ABC" from tick 3 on, sampled every 500 ms by a fresh session in a live
    context, nothing has been sent after tick 7 and the session is still
    sampling with a count of zero: "ABC" is under the minimum length of
    [getLatestResponse], so every sample is the empty string. *)
Lemma abc_stream_emits_nothing :
  sessionAfter (freshStart freshGlobals emptyDocument) (streamTicks abcStream) 8
  = {| t_globals := setCapturing true freshGlobals; t_sent := [];
       t_status := Sleeping {| previousContent := []; stableCount := 0;
                               startTime := 0 |} |}
  /\ ~ In (RESPONSE_CAPTURED AI_TYPE (str "ABC"))
         (t_sent (sessionAfter (freshStart freshGlobals emptyDocument)
                    (streamTicks abcStream) 8)).
Proof.
  assert (E : sessionAfter (freshStart freshGlobals emptyDocument)
                (streamTicks abcStream) 8
              = {| t_globals := setCapturing true freshGlobals; t_sent := [];
                   t_status := Sleeping {| previousContent := [];
                                           stableCount := 0;
                                           startTime := 0 |} |})
    by (vm_compute; reflexivity).
  split; [exact E|]. rewrite E. simpl. tauto.
Qed.

(** C1, amended.  Let a session start while none is active and the context
    is valid, and let the samples [getLatestResponse() || ''] change at
    every tick up to tick [L] (each differs from the one before it, or is
    empty) and from tick [L] on be one accepted text [c], that is a trimmed
    text of more than 10 code units, while the context stays valid and the
    ceiling is not reached.  Then the session is still sampling, with
    nothing sent, after every tick before [L + stableThreshold], and it
    completes at tick [L + stableThreshold]: there it sends nothing if [c]
    is the baseline and otherwise hands one RESPONSE_CAPTURED with [c] to
    [safeSendMessage], which delivers it when the context is valid and the
    channel does not throw.  Ticks are counted from 0. *)
Theorem stability_law (w0 : World) (g : Globals) (tick : nat -> World)
  (L : nat) (c : jsstring) :
  isCapturing g = false ->
  isContextValid w0 = true ->
  (forall k, (k <= L)%nat ->
     currentContentOf (tick k) <> previousSample tick k
     \/ currentContentOf (tick k) = []) ->
  (forall k, (L <= k <= L + stableThreshold)%nat ->
     getLatestResponse (document (tick k)) = Some c) ->
  (forall k, (k < L + stableThreshold)%nat ->
     goesOn (Date_now w0) (tick k)) ->
  exists start,
    waitForStreamingComplete w0 g = Some start /\
    (forall n, (n <= L + stableThreshold)%nat ->
       exists s, t_status (sessionAfter start tick n) = Sleeping s /\
                 t_sent (sessionAfter start tick n) = []) /\
    let final := sessionAfter start tick (S (L + stableThreshold))%nat in
    t_status final = Ended Stabilised /\
    isCapturing (t_globals final) = false /\
    t_sent final
    = (if jseqb c (lastCapturedContent g) then []
       else safeSendMessage (tick (L + stableThreshold)%nat)
              (RESPONSE_CAPTURED AI_TYPE c)) /\
    (c <> lastCapturedContent g ->
     isContextValid (tick (L + stableThreshold)%nat) = true ->
     sendMessage_throws (tick (L + stableThreshold)%nat) = false ->
     t_sent final = [RESPONSE_CAPTURED AI_TYPE c]).
Proof.
  intros Hidle Hv0 Hchange Hconst Hon.
  eexists. split; [apply waitForStreamingComplete_starts; assumption|].
  assert (Hne : c <> []).
  { pose proof (getLatestResponse_long _ _ (Hconst L ltac:(lia))) as Hl.
    intros ->. simpl in Hl. lia. }
  assert (Hc : forall k, (L <= k <= L + stableThreshold)%nat ->
                 currentContentOf (tick k) = c).
  { intros k Hk. apply currentContentOf_Some. now apply Hconst. }
  assert (Hpre : forall n, (n <= S L)%nat ->
            sessionAfter
              {| t_globals := setCapturing true g; t_sent := [];
                 t_status := Sleeping {| previousContent := [];
                                         stableCount := 0;
                                         startTime := Date_now w0 |} |}
              tick n
            = {| t_globals := setCapturing true g; t_sent := [];
                 t_status := Sleeping {| previousContent := previousSample tick n;
                                         stableCount := 0;
                                         startTime := Date_now w0 |} |}).
  { intros n Hn. apply changing_phase. intros k Hk. split.
    - apply Hchange. lia.
    - apply Hon. unfold stableThreshold. lia. }
  pose proof (Hpre (S L) (le_n _)) as HL.
  simpl previousSample in HL. rewrite (Hc L) in HL by lia.
  destruct (stable_phase w0 g tick (S L) c HL Hne) as [Hcount Hfinal].
  { intros k Hk. apply Hc. lia. }
  { intros k Hk. apply Hon. lia. }
  replace (S L + stableThreshold - 1)%nat with (L + stableThreshold)%nat
    in Hfinal by lia.
  split.
  - intros n Hn. destruct (Nat.le_gt_cases n (S L)) as [Hle|Hgt].
    + rewrite Hpre by exact Hle. projections. eauto.
    + replace n with (S L + (n - S L))%nat by lia.
      rewrite Hcount by lia. projections. eauto.
  - cbv zeta. replace (S (L + stableThreshold)) with (S L + stableThreshold)%nat by lia.
    rewrite Hfinal. projections.
    split; [reflexivity|].
    split; [destruct (jseqb c (lastCapturedContent g)); reflexivity|].
    split; [reflexivity|].
    intros Hneq Hvalid Hthrow. apply jseqb_neq in Hneq. rewrite Hneq.
    unfold safeSendMessage. now rewrite Hvalid, Hthrow.
Qed.

Lemma stability_law_witness :
  t_sent (sessionAfter (freshStart freshGlobals emptyDocument)
            (streamTicks answerStream) 7) = [] /\
  t_sent (sessionAfter (freshStart freshGlobals emptyDocument)
            (streamTicks answerStream) 8)
  = [RESPONSE_CAPTURED AI_TYPE (str "The answer is forty-two.")].
Proof.
  destruct (stability_law (liveWorld 0 emptyDocument) freshGlobals
              (streamTicks answerStream) 3 (str "The answer is forty-two."))
    as (start & Hstart & Hbefore & Hfinal).
  - reflexivity.
  - reflexivity.
  - intros k Hk.
    destruct k as [|[|[|[|k]]]];
      [right; vm_compute; reflexivity
      |right; vm_compute; reflexivity
      |left; vm_compute; discriminate
      |left; vm_compute; discriminate
      |lia].
  - intros k Hk. unfold stableThreshold in Hk.
    destruct k as [|[|[|[|[|[|[|[|k]]]]]]]]; try lia; vm_compute; reflexivity.
  - intros k Hk. unfold stableThreshold in Hk.
    destruct k as [|[|[|[|[|[|[|k]]]]]]]; try lia;
      (split; [reflexivity | vm_compute; reflexivity]).
  - assert (E : start = freshStart freshGlobals emptyDocument).
    { unfold freshStart. rewrite Hstart. reflexivity. }
    rewrite <- E. split.
    + destruct (Hbefore 7%nat) as (s & _ & Hs); [unfold stableThreshold; lia|].
      exact Hs.
    + destruct Hfinal as (_ & _ & _ & Hsent).
      apply Hsent; [vm_compute; discriminate | reflexivity | reflexivity].
Defined.

(** ** The first sample *)

(** C8.  [previousContent] starts as the empty string, so the first sample
    of a session never raises [stableCount], whatever the page shows: after
    the first tick the session has not completed, and if it is still
    sampling its count is 0.  Hence, when the page renders the same
    accepted text [c] from the first tick on (context valid, ceiling not
    reached), the session is still sampling after each of the first
    [stableThreshold] ticks, having sent nothing, and completes at tick
    [stableThreshold + 1].  Ticks are counted from 1 here: [sessionAfter
    start tick n] is the session after its [n]-th tick. *)
Theorem first_sample_never_counts (w0 : World) (g : Globals)
  (tick : nat -> World) (c : jsstring) :
  isCapturing g = false ->
  isContextValid w0 = true ->
  (forall k, (k <= stableThreshold)%nat ->
     getLatestResponse (document (tick k)) = Some c) ->
  (forall k, (k < stableThreshold)%nat -> goesOn (Date_now w0) (tick k)) ->
  exists start,
    waitForStreamingComplete w0 g = Some start /\
    (forall w1,
       t_status (wake w1 start) <> Ended Stabilised /\
       forall s, t_status (wake w1 start) = Sleeping s -> stableCount s = 0%nat) /\
    (forall n, (1 <= n <= stableThreshold)%nat ->
       t_status (sessionAfter start tick n)
       = Sleeping {| previousContent := c; stableCount := n - 1;
                     startTime := Date_now w0 |}
       /\ t_sent (sessionAfter start tick n) = []) /\
    t_status (sessionAfter start tick (S stableThreshold)) = Ended Stabilised.
Proof.
  intros Hidle Hv0 Hconst Hon.
  eexists. split; [apply waitForStreamingComplete_starts; assumption|].
  assert (Hne : c <> []).
  { pose proof (getLatestResponse_long _ _ (Hconst 0%nat ltac:(lia))) as Hl.
    intros ->. simpl in Hl. lia. }
  split.
  { intros w1. unfold wake, resume, loopBody. projections.
    assert (E : jseqb (currentContentOf w1) []
                && (0 <? Z.of_nat (List.length (currentContentOf w1))) = false).
    { destruct (currentContentOf w1); reflexivity. }
    rewrite E. unfold toNextSleep, finally. projections.
    destruct (loopHead w1 _) as [e|] eqn:Hh; projections.
    - split; [|discriminate].
      unfold loopHead in Hh.
      destruct (_ <? maxWait); [destruct (negb _)|]; congruence.
    - split; [discriminate|]. now intros s [= <-]. }
  assert (H1 : sessionAfter
                 {| t_globals := setCapturing true g; t_sent := [];
                    t_status := Sleeping {| previousContent := [];
                                            stableCount := 0;
                                            startTime := Date_now w0 |} |}
                 tick 1
               = {| t_globals := setCapturing true g; t_sent := [];
                    t_status := Sleeping {| previousContent := c;
                                            stableCount := 0;
                                            startTime := Date_now w0 |} |}).
  { rewrite (changing_phase w0 g tick 1).
    - simpl previousSample.
      now rewrite (currentContentOf_Some _ _ (Hconst 0%nat ltac:(lia))).
    - intros k Hk. assert (k = 0)%nat as -> by lia. split.
      + left. simpl previousSample.
        now rewrite (currentContentOf_Some _ _ (Hconst 0%nat ltac:(lia))).
      + apply Hon. unfold stableThreshold. lia. }
  destruct (stable_phase w0 g tick 1 c H1 Hne) as [Hcount Hfinal].
  { intros k Hk. apply currentContentOf_Some, Hconst. lia. }
  { intros k Hk. apply Hon. lia. }
  split.
  - intros n Hn. replace n with (1 + (n - 1))%nat at 1 3 by lia.
    rewrite Hcount by lia. projections. auto.
  - change (S stableThreshold) with (1 + stableThreshold)%nat.
    rewrite Hfinal. reflexivity.
Qed.

Lemma first_sample_never_counts_witness :
  t_status (sessionAfter (freshStart freshGlobals emptyDocument)
              (streamTicks constantStream) 4)
  = Sleeping {| previousContent := str "The answer is forty-two.";
                stableCount := 3; startTime := 0 |} /\
  t_status (sessionAfter (freshStart freshGlobals emptyDocument)
              (streamTicks constantStream) 5)
  = Ended Stabilised.
Proof.
  destruct (first_sample_never_counts (liveWorld 0 emptyDocument) freshGlobals
              (streamTicks constantStream) (str "The answer is forty-two."))
    as (start & Hstart & _ & Hbefore & Hfinal).
  - reflexivity.
  - reflexivity.
  - intros k Hk. unfold stableThreshold in Hk.
    destruct k as [|[|[|[|[|k]]]]]; try lia; vm_compute; reflexivity.
  - intros k Hk. unfold stableThreshold in Hk.
    destruct k as [|[|[|[|k]]]]; try lia;
      (split; [reflexivity | vm_compute; reflexivity]).
  - assert (E : start = freshStart freshGlobals emptyDocument).
    { unfold freshStart. rewrite Hstart. reflexivity. }
    rewrite <- E. split.
    + destruct (Hbefore 4%nat) as [Hs _]; [unfold stableThreshold; lia|].
      exact Hs.
    + exact Hfinal.
Defined.

(** ** What a turn can do *)

Lemma loopHead_not_stabilised (w : World) (s : Session) :
  loopHead w s <> Some Stabilised.
Proof.
  unfold loopHead.
  destruct (_ <? maxWait); [destruct (negb _)|]; discriminate.
Qed.

Lemma loopHead_start (w : World) (s s' : Session) :
  startTime s = startTime s' -> loopHead w s = loopHead w s'.
Proof. unfold loopHead. now intros ->. Qed.

(** The three ways a resumed session leaves its turn. *)
Lemma resume_cases (w : World) (g : Globals) (s : Session) :
  (currentContentOf w = previousContent s /\ currentContentOf w <> [] /\
   (stableThreshold <= S (stableCount s))%nat /\
   resume w g s
   = {| t_globals :=
          setCapturing false
            (if jseqb (currentContentOf w) (lastCapturedContent g) then g
             else setLastCaptured (currentContentOf w) g);
        t_sent :=
          (if jseqb (currentContentOf w) (lastCapturedContent g) then []
           else safeSendMessage w
                  (RESPONSE_CAPTURED AI_TYPE (currentContentOf w)));
        t_status := Ended Stabilised |})
  \/
  (exists s',
     resume w g s = {| t_globals := g; t_sent := []; t_status := Sleeping s' |}
     /\ loopHead w s = None
     /\ previousContent s' = currentContentOf w
     /\ startTime s' = startTime s
     /\ (stableCount s' < stableThreshold)%nat
     /\ (stableCount s' = 0%nat
         \/ (stableCount s' = S (stableCount s)
             /\ currentContentOf w = previousContent s
             /\ currentContentOf w <> [])))
  \/
  (exists e,
     resume w g s
     = {| t_globals := setCapturing false g; t_sent := [];
          t_status := Ended e |}
     /\ loopHead w s = Some e).
Proof.
  unfold resume, loopBody.
  destruct (jseqb (currentContentOf w) (previousContent s)) eqn:Heq;
    [apply jseqb_eq in Heq|];
    (destruct (0 <? Z.of_nat (List.length (currentContentOf w))) eqn:Hlen;
     cbn [andb]).
  1:{ assert (Hne : currentContentOf w <> []).
      { intros E. rewrite E in Hlen. discriminate. }
      destruct (stableThreshold <=? S (stableCount s))%nat eqn:Hth.
      - left. apply Nat.leb_le in Hth. repeat split; auto.
        destruct (jseqb (currentContentOf w) (lastCapturedContent g));
          reflexivity.
      - right. apply Nat.leb_gt in Hth.
        unfold toNextSleep, finally. projections.
        rewrite (loopHead_start w _ s) by reflexivity.
        destruct (loopHead w s) as [e|] eqn:Hh; projections.
        + right. exists e. auto.
        + left. eexists. split; [reflexivity|]. projections.
          repeat split; auto. }
  all: right; unfold toNextSleep, finally; projections;
    rewrite (loopHead_start w _ s) by reflexivity;
    destruct (loopHead w s) as [e|] eqn:Hh; projections;
    [ right; exists e; auto
    | left; eexists; split; [reflexivity|]; projections;
      repeat split; auto; unfold stableThreshold; lia ].
Qed.

(** A turn sends at most the one message of line 189, and only when it
    completes in a valid context. *)
Lemma resume_sent (w : World) (g : Globals) (s : Session) :
  t_sent (resume w g s) = [] \/
  (t_sent (resume w g s) = [RESPONSE_CAPTURED AI_TYPE (currentContentOf w)]
   /\ t_status (resume w g s) = Ended Stabilised
   /\ isContextValid w = true /\ sendMessage_throws w = false
   /\ currentContentOf w <> lastCapturedContent g).
Proof.
  destruct (resume_cases w g s) as [(_ & _ & _ & E)|[(s' & E & _)|(e & E & _)]];
    rewrite E; projections; auto.
  destruct (jseqb (currentContentOf w) (lastCapturedContent g)) eqn:Hb; auto.
  apply jseqb_neq in Hb. unfold safeSendMessage.
  destruct (isContextValid w); cbn [negb]; auto.
  destruct (sendMessage_throws w); auto.
  right. repeat split; auto.
Qed.

Lemma captured_app (xs ys : list Message) :
  captured (xs ++ ys) = (captured xs + captured ys)%nat.
Proof. unfold captured. now rewrite filter_app, length_app. Qed.

Lemma waitForStreamingComplete_invariant (w : World) (g : Globals) (t : Turn) :
  waitForStreamingComplete w g = Some t -> sessionInvariant t.
Proof.
  unfold waitForStreamingComplete. destruct (isCapturing g); [discriminate|].
  intros [= <-]. unfold toNextSleep, finally, sessionInvariant. projections.
  destruct (loopHead w _); projections; unfold captured; simpl; auto.
Qed.

Lemma wake_invariant (w : World) (t : Turn) :
  sessionInvariant t -> sessionInvariant (wake w t).
Proof.
  unfold sessionInvariant, wake.
  destruct (t_status t) as [s|e] eqn:Hst; [|now rewrite Hst].
  intros [Hsent Hcap]. rewrite Hsent. cbn [app]. projections.
  destruct (resume_cases w (t_globals t) s)
    as [(_ & _ & _ & E)|[(s' & E & _)|(e & E & _)]]; rewrite E; projections.
  - split.
    + unfold captured.
      destruct (jseqb _ _); [simpl; lia|].
      unfold safeSendMessage. destruct (negb _); [simpl; lia|].
      destruct (sendMessage_throws w); simpl; lia.
    + destruct (jseqb _ _); reflexivity.
  - auto.
  - split; [unfold captured; simpl; lia|reflexivity].
Qed.

Lemma session_invariant (w : World) (g : Globals) (start : Turn)
  (tick : nat -> World) (n : nat) :
  waitForStreamingComplete w g = Some start ->
  sessionInvariant (sessionAfter start tick n).
Proof.
  intros H. induction n as [|n IH]; simpl.
  - now apply waitForStreamingComplete_invariant with w g.
  - now apply wake_invariant.
Qed.

Lemma session_sleeping (w0 : World) (g : Globals) (start : Turn)
  (tick : nat -> World) (n : nat) (s : Session) :
  waitForStreamingComplete w0 g = Some start ->
  t_status (sessionAfter start tick n) = Sleeping s ->
  t_globals (sessionAfter start tick n) = setCapturing true g /\
  t_sent (sessionAfter start tick n) = [] /\
  startTime s = Date_now w0 /\
  forall m, (m <= n)%nat -> exists s', t_status (sessionAfter start tick m) = Sleeping s'.
Proof.
  intros Hstart. revert s. induction n as [|n IH]; intros s Hs.
  - simpl sessionAfter in *. revert Hs. generalize Hstart.
    unfold waitForStreamingComplete.
    destruct (isCapturing g); [discriminate|]. intros [= <-].
    unfold toNextSleep, finally. projections.
    destruct (loopHead w0 _) eqn:Hh; projections; [discriminate|].
    intros [= <-]. repeat split; auto.
    intros m Hm. assert (m = 0)%nat as -> by lia.
    simpl sessionAfter. projections. eauto.
  - simpl in Hs. unfold wake in Hs.
    destruct (t_status (sessionAfter start tick n)) as [s0|e] eqn:Hn.
    2:{ rewrite Hn in Hs. discriminate. }
    destruct (IH s0 eq_refl) as (Hg & Hsent & Ht0 & Hbefore).
    projections.
    simpl sessionAfter. unfold wake. rewrite Hn. projections.
    destruct (resume_cases (tick n) (t_globals (sessionAfter start tick n)) s0)
      as [(_ & _ & _ & E)|[(s' & E & _ & _ & Hst & _)|(e & E & _)]];
      rewrite E in *; projections; try discriminate.
    injection Hs as <-. rewrite Hsent. repeat split; auto; try congruence.
    intros m Hm. destruct (Nat.eq_dec m (S n)) as [->|Hne].
    + simpl. unfold wake. rewrite Hn, E. projections. eauto.
    + apply Hbefore. lia.
Qed.

(** ** Suppression *)

(** C3, as stated, fails.  A fresh session on a page that keeps rendering
    one text reaches the threshold at its fifth tick; the text differs from
    the (empty) baseline, yet when the extension context went away during
    the last sleep no RESPONSE_CAPTURED is sent, while the baseline is set
    to the text all the same. *)
Lemma stabilised_without_send :
  sessionAfter (freshStart freshGlobals emptyDocument)
    (invalidatedTicks answerText 4) 5
  = {| t_globals := {| lastCapturedContent := answerText;
                       isCapturing := false |};
       t_sent := [];
       t_status := Ended Stabilised |}
  /\ answerText <> lastCapturedContent freshGlobals
  /\ captured (t_sent (sessionAfter (freshStart freshGlobals emptyDocument)
                         (invalidatedTicks answerText 4) 5)) <> 1%nat.
Proof.
  assert (E : sessionAfter (freshStart freshGlobals emptyDocument)
                (invalidatedTicks answerText 4) 5
              = {| t_globals := {| lastCapturedContent := answerText;
                                   isCapturing := false |};
                   t_sent := [];
                   t_status := Ended Stabilised |})
    by (vm_compute; reflexivity).
  split; [exact E|]. split; [vm_compute; discriminate|].
  rewrite E. vm_compute. discriminate.
Qed.

(** C3, amended.  When a session reaches the stability threshold at some
    tick, the baseline it compares with is the one it started with, and: if
    the stabilized sample equals the baseline, nothing is sent and the
    baseline is unchanged; otherwise the baseline is set to the sample and
    one RESPONSE_CAPTURED carrying it is handed to [safeSendMessage], which
    sends it when the context is valid and the channel does not throw, and
    sends nothing otherwise.  In every case a session sends at most one
    RESPONSE_CAPTURED. *)
Theorem suppression_law (w0 : World) (g : Globals) (start : Turn)
  (tick : nat -> World) (n : nat) (s : Session) :
  waitForStreamingComplete w0 g = Some start ->
  t_status (sessionAfter start tick n) = Sleeping s ->
  t_status (sessionAfter start tick (S n)) = Ended Stabilised ->
  let after := sessionAfter start tick (S n) in
  let c := currentContentOf (tick n) in
  lastCapturedContent (t_globals (sessionAfter start tick n))
  = lastCapturedContent g /\
  (c = lastCapturedContent g ->
   t_sent after = [] /\
   lastCapturedContent (t_globals after) = lastCapturedContent g) /\
  (c <> lastCapturedContent g ->
   lastCapturedContent (t_globals after) = c /\
   t_sent after = safeSendMessage (tick n) (RESPONSE_CAPTURED AI_TYPE c) /\
   (isContextValid (tick n) = true -> sendMessage_throws (tick n) = false ->
    t_sent after = [RESPONSE_CAPTURED AI_TYPE c]) /\
   (isContextValid (tick n) = false \/ sendMessage_throws (tick n) = true ->
    t_sent after = [])) /\
  (forall m, (captured (t_sent (sessionAfter start tick m)) <= 1)%nat).
Proof.
  intros Hstart Hs Hend after c.
  destruct (session_sleeping _ _ _ _ _ _ Hstart Hs) as (Hg & Hsent & _ & _).
  assert (Hafter : after = resume (tick n) (setCapturing true g) s).
  { unfold after. simpl sessionAfter. unfold wake. rewrite Hs, Hsent, Hg.
    cbn [app]. now destruct (resume _ _ _). }
  assert (Hm : forall m, (captured (t_sent (sessionAfter start tick m)) <= 1)%nat).
  { intros m. pose proof (session_invariant w0 g start tick m Hstart) as Hi.
    unfold sessionInvariant in Hi.
    destruct (t_status (sessionAfter start tick m)); destruct Hi as [Hi _];
      [rewrite Hi; unfold captured; simpl; lia | exact Hi]. }
  split; [now rewrite Hg|].
  unfold after in Hend. fold after in Hend. rewrite Hafter in Hend |- *.
  destruct (resume_cases (tick n) (setCapturing true g) s)
    as [(_ & _ & _ & E)|[(s' & E & _)|(e & E & Hh)]];
    rewrite E in Hend |- *; projections; try discriminate.
  2:{ injection Hend as ->. now apply loopHead_not_stabilised in Hh. }
  change (lastCapturedContent (setCapturing true g))
    with (lastCapturedContent g).
  fold c. split; [|split; [|exact Hm]].
  - intros Hc. apply jseqb_eq in Hc. rewrite Hc. split; reflexivity.
  - intros Hc. apply jseqb_neq in Hc. rewrite Hc.
    split; [reflexivity|]. split; [reflexivity|]. split.
    + intros Hv Ht. unfold safeSendMessage. now rewrite Hv, Ht.
    + intros [Hv|Ht]; unfold safeSendMessage;
        [now rewrite Hv | rewrite Ht; now destruct (negb _)].
Qed.

Lemma suppression_law_witness :
  t_sent (sessionAfter (freshStart freshGlobals emptyDocument)
            (streamTicks constantStream) 5)
  = [RESPONSE_CAPTURED AI_TYPE answerText] /\
  lastCapturedContent
    (t_globals (sessionAfter (freshStart freshGlobals emptyDocument)
                  (streamTicks constantStream) 5))
  = answerText.
Proof.
  destruct (suppression_law (liveWorld 0 emptyDocument) freshGlobals
              (freshStart freshGlobals emptyDocument)
              (streamTicks constantStream) 4
              {| previousContent := answerText; stableCount := 3;
                 startTime := 0 |})
    as (_ & _ & Hdiff & _).
  - reflexivity.
  - vm_compute. reflexivity.
  - vm_compute. reflexivity.
  - destruct Hdiff as (Hbase & _ & Hsend & _); [vm_compute; discriminate|].
    split.
    + apply Hsend; reflexivity.
    + exact Hbase.
Defined.

(** ** The baseline and delivery *)

(** C9.  When a turn reaches the threshold with a sample that differs from
    the baseline, [lastCapturedContent] becomes that sample whether or not
    the message gets out.  If the context is invalid at the send, or
    [sendMessage] throws, nothing is sent, the session still returns
    normally, and any later turn that stabilizes on the same text with this
    baseline sends nothing either, even in a valid context with a working
    channel: the text is never delivered. *)
Theorem baseline_set_without_delivery (w : World) (g : Globals) (s : Session) :
  t_status (resume w g s) = Ended Stabilised ->
  currentContentOf w <> lastCapturedContent g ->
  lastCapturedContent (t_globals (resume w g s)) = currentContentOf w /\
  (isContextValid w = false \/ sendMessage_throws w = true ->
   t_sent (resume w g s) = [] /\
   forall w' g' s',
     lastCapturedContent g' = lastCapturedContent (t_globals (resume w g s)) ->
     t_status (resume w' g' s') = Ended Stabilised ->
     currentContentOf w' = currentContentOf w ->
     t_sent (resume w' g' s') = [] /\
     lastCapturedContent (t_globals (resume w' g' s')) = currentContentOf w).
Proof.
  intros Hend Hdiff.
  destruct (resume_cases w g s)
    as [(_ & _ & _ & E)|[(s1 & E & _)|(e & E & Hh)]];
    rewrite E in Hend |- *; projections; try discriminate.
  2:{ injection Hend as ->. now apply loopHead_not_stabilised in Hh. }
  apply jseqb_neq in Hdiff. rewrite Hdiff. cbn [setCapturing setLastCaptured].
  projections. split; [reflexivity|].
  intros Hbad. split.
  - unfold safeSendMessage. destruct Hbad as [Hv|Ht].
    + now rewrite Hv.
    + rewrite Ht. now destruct (negb _).
  - intros w' g' s' Hbase Hend' Hsame.
    destruct (resume_cases w' g' s')
      as [(_ & _ & _ & E')|[(s2 & E' & _)|(e & E' & Hh)]];
      rewrite E' in Hend' |- *; projections; try discriminate.
    2:{ injection Hend' as ->. now apply loopHead_not_stabilised in Hh. }
    rewrite Hbase, Hsame, jseqb_refl. projections. auto.
Qed.

Lemma baseline_set_without_delivery_witness :
  lastCapturedContent
    (t_globals (resume (deadWorld 2500 (proseDocument answerText))
                  (setCapturing true freshGlobals) almostStable))
  = answerText /\
  t_sent (resume (deadWorld 2500 (proseDocument answerText))
            (setCapturing true freshGlobals) almostStable) = [] /\
  t_sent (resume (liveWorld 9000 (proseDocument answerText))
            {| lastCapturedContent := answerText; isCapturing := true |}
            {| previousContent := answerText; stableCount := 3;
               startTime := 7000 |}) = [].
Proof.
  destruct (baseline_set_without_delivery
              (deadWorld 2500 (proseDocument answerText))
              (setCapturing true freshGlobals) almostStable)
    as (Hbase & Hrest).
  - vm_compute. reflexivity.
  - vm_compute. discriminate.
  - destruct Hrest as (Hsent & Hlater); [left; reflexivity|].
    split; [exact Hbase|]. split; [exact Hsent|].
    apply (Hlater (liveWorld 9000 (proseDocument answerText))
             {| lastCapturedContent := answerText; isCapturing := true |}
             {| previousContent := answerText; stableCount := 3;
                startTime := 7000 |});
      vm_compute; reflexivity.
Defined.

(** Two sessions in a row on a page that keeps rendering one text: the
    first stabilizes while [sendMessage] throws, the second in a healthy
    context; neither sends anything. *)
Example undelivered_answer_is_suppressed :
  let first := sessionAfter (freshStart freshGlobals emptyDocument)
                 (brokenChannelTicks answerText 4) 5 in
  let second := sessionAfter
                  (freshStart (t_globals first) emptyDocument)
                  (streamTicks constantStream) 5 in
  t_status first = Ended Stabilised /\ t_sent first = [] /\
  t_status second = Ended Stabilised /\ t_sent second = [] /\
  lastCapturedContent (t_globals second) = answerText.
Proof. vm_compute. repeat split; reflexivity. Qed.

(** ** Cancellation *)

Lemma waitForStreamingComplete_sent (w : World) (g : Globals) (t : Turn) :
  waitForStreamingComplete w g = Some t -> t_sent t = [].
Proof.
  unfold waitForStreamingComplete. destruct (isCapturing g); [discriminate|].
  intros [= <-]. unfold toNextSleep, finally. projections.
  destruct (loopHead w _); reflexivity.
Qed.

Lemma startCapture_outbox (w : World) (a : Agent) :
  outbox (startCapture w a) = outbox a.
Proof.
  unfold startCapture.
  destruct (waitForStreamingComplete w (globals a)) as [t|] eqn:E; [|reflexivity].
  simpl. rewrite (waitForStreamingComplete_sent _ _ _ E). apply app_nil_r.
Qed.

Lemma checkForResponse_outbox (w : World) (node : Node) (a : Agent) :
  outbox (checkForResponse w node a) = outbox a.
Proof.
  unfold checkForResponse. destruct (isCapturing (globals a)); [reflexivity|].
  destruct (existsb _ _); [apply startCapture_outbox|reflexivity].
Qed.

Lemma step_invalid_outbox (a : Agent) (w : World) (ev : Event) :
  isContextValid w = false -> outbox (step a (w, ev)) = outbox a.
Proof.
  intros Hv. destruct ev as [message|i|i|mutations|]; simpl.
  - unfold onMessage. destruct message as [text| |]; try reflexivity.
    destruct (injectMessage_begin (document w) text) as [ops [err|el]];
      reflexivity.
  - unfold injectMessage_resume.
    destruct (nth_error (injections a) i); [|reflexivity].
    simpl. now rewrite startCapture_outbox.
  - unfold session_resume.
    destruct (nth_error (sessions a) i) as [s|]; [|reflexivity].
    simpl. destruct (resume_sent w (globals a) s) as [E|(_ & _ & Hvalid & _)].
    + rewrite E. apply app_nil_r.
    + congruence.
  - destruct (observing a); [|reflexivity].
    unfold observerCallback. now rewrite Hv.
  - destruct (awaitingLoad a); [|reflexivity].
    unfold startObserving. now rewrite Hv.
Qed.

Lemma steps_invalid_outbox (turns : list (World * Event)) (a : Agent) :
  Forall (fun turn => isContextValid (fst turn) = false) turns ->
  outbox (fold_left step turns a) = outbox a.
Proof.
  revert a. induction turns as [|[w ev] turns IH]; intros a H; [reflexivity|].
  inversion H as [|? ? Hw Hrest]; subst. simpl fold_left.
  rewrite IH by assumption. now apply step_invalid_outbox.
Qed.

(** C4.  If the extension context is found invalid in the turn in which
    the [k]-th sleep of a session returns, that is, it went away at the
    latest during that sleep, the session has ended by the end of that very
    turn, nothing is sent in it, the flag is released and the session does
    nothing afterwards.  Every send goes through [safeSendMessage], which
    sends nothing in an invalid context and nothing when [sendMessage]
    throws, and returns normally in both cases; so over turns that find the
    context invalid, whatever the agent runs in them, nothing is sent to
    the background script. *)
Theorem cancellation (w0 : World) (g : Globals) (start : Turn)
  (tick : nat -> World) (k : nat) :
  waitForStreamingComplete w0 g = Some start ->
  isContextValid (tick k) = false ->
  (exists e, t_status (sessionAfter start tick (S k)) = Ended e) /\
  t_sent (sessionAfter start tick (S k)) = t_sent (sessionAfter start tick k) /\
  isCapturing (t_globals (sessionAfter start tick (S k))) = false /\
  (forall m, (S k <= m)%nat ->
     sessionAfter start tick m = sessionAfter start tick (S k)) /\
  (forall message, safeSendMessage (tick k) message = []) /\
  (forall w message,
     sendMessage_throws w = true -> safeSendMessage w message = []) /\
  (forall a turns,
     Forall (fun turn => isContextValid (fst turn) = false) turns ->
     outbox (fold_left step turns a) = outbox a).
Proof.
  intros Hstart Hv.
  assert (Hend : exists e, t_status (sessionAfter start tick (S k)) = Ended e).
  { simpl. unfold wake.
    destruct (t_status (sessionAfter start tick k)) as [s|e] eqn:Hk.
    - projections.
      destruct (resume_cases (tick k) (t_globals (sessionAfter start tick k)) s)
        as [(_ & _ & _ & E)|[(s' & E & Hh & _)|(e & E & _)]];
        rewrite E; projections; eauto.
      destruct (loopHead_invalid (tick k) s Hv) as [e He]. congruence.
    - rewrite Hk. eauto. }
  split; [exact Hend|]. split.
  { simpl. unfold wake.
    destruct (t_status (sessionAfter start tick k)) as [s|e] eqn:Hk;
      [|reflexivity].
    projections.
    destruct (resume_sent (tick k) (t_globals (sessionAfter start tick k)) s)
      as [E|(_ & _ & Hvalid & _)]; [|congruence].
    rewrite E. apply app_nil_r. }
  split.
  { pose proof (session_invariant w0 g start tick (S k) Hstart) as Hi.
    unfold sessionInvariant in Hi. destruct Hend as [e He].
    rewrite He in Hi. apply Hi. }
  split.
  { intros m Hm. destruct Hend as [e He].
    now apply sessionAfter_ended with e. }
  split.
  { intros message. unfold safeSendMessage. now rewrite Hv. }
  split.
  { intros w message Ht. unfold safeSendMessage. rewrite Ht.
    now destruct (negb _). }
  intros a turns. apply steps_invalid_outbox.
Qed.

Lemma cancellation_witness :
  t_status (sessionAfter (freshStart freshGlobals emptyDocument)
              (invalidatedTicks answerText 2) 3)
  = Ended ContextInvalidated /\
  t_sent (sessionAfter (freshStart freshGlobals emptyDocument)
            (invalidatedTicks answerText 2) 8) = [].
Proof.
  destruct (cancellation (liveWorld 0 emptyDocument) freshGlobals
              (freshStart freshGlobals emptyDocument)
              (invalidatedTicks answerText 2) 2)
    as (_ & Hsent & _ & Hlater & _).
  - reflexivity.
  - reflexivity.
  - split; [vm_compute; reflexivity|].
    rewrite (Hlater 8%nat) by lia. rewrite Hsent. vm_compute. reflexivity.
Defined.

(** ** Timeout *)

Section Timeout.
Variables (w0 : World) (g : Globals) (tick : nat -> World).
Hypothesis idle : isCapturing g = false.
Hypothesis valid0 : isContextValid w0 = true.
Hypothesis valid : forall k, isContextValid (tick k) = true.
Hypothesis firstSleep : Date_now w0 + checkInterval <= Date_now (tick 0).
Hypothesis sleeps :
  forall k, Date_now (tick k) + checkInterval <= Date_now (tick (S k)).
Hypothesis unstable :
  forall k, (k + stableThreshold <= maxTicks)%nat -> ~ stableWindow tick k.

Let start : Turn :=
  {| t_globals := setCapturing true g; t_sent := [];
     t_status := Sleeping {| previousContent := []; stableCount := 0;
                             startTime := Date_now w0 |} |}.

Lemma clock_advances (k : nat) :
  checkInterval * (Z.of_nat k + 1) <= elapsed w0 tick k.
Proof.
  unfold elapsed. pose proof firstSleep as H0.
  induction k as [|k IH].
  - unfold checkInterval in *. lia.
  - pose proof (sleeps k). unfold checkInterval in *. lia.
Qed.

(** The samples [n - 1 - j .. n - 1] are one non-empty text. *)
Let repeated (n j : nat) : Prop :=
  j = 0%nat \/
  ((j < n)%nat /\ currentContentOf (tick (n - 1)) <> [] /\
   forall i, (i <= j)%nat ->
     currentContentOf (tick (n - 1 - i)) = currentContentOf (tick (n - 1))).

Let running (n : nat) : Prop :=
  exists j,
    sessionAfter start tick n
    = {| t_globals := setCapturing true g; t_sent := [];
         t_status := Sleeping {| previousContent := previousSample tick n;
                                 stableCount := j;
                                 startTime := Date_now w0 |} |}
    /\ repeated n j.

Let timedOutAt (n : nat) : Prop :=
  sessionAfter start tick (S n)
  = {| t_globals := setCapturing false g; t_sent := [];
       t_status := Ended TimedOut |}
  /\ maxWait <= elapsed w0 tick n.

Lemma repeats_short (n j : nat) :
  (n <= maxTicks)%nat -> repeated n j -> (S j < stableThreshold)%nat.
Proof.
  intros Hn [->|(Hj & Hne & Hrun)]; [unfold stableThreshold; lia|].
  destruct (Nat.lt_ge_cases (S j) stableThreshold) as [|Hge]; [assumption|].
  exfalso. unfold stableThreshold in *.
  apply (unstable (n - 4)%nat); [unfold stableThreshold; lia|].
  assert (Hall : forall i, (i < 4)%nat ->
            currentContentOf (tick (n - 4 + i)) = currentContentOf (tick (n - 1))).
  { intros i Hi. replace (n - 4 + i)%nat with (n - 1 - (3 - i))%nat by lia.
    apply Hrun. lia. }
  assert (H0 : currentContentOf (tick (n - 4)) = currentContentOf (tick (n - 1))).
  { rewrite <- (Hall 0%nat) by lia. now rewrite Nat.add_0_r. }
  split.
  - now rewrite H0.
  - intros i Hi. now rewrite H0, Hall.
Qed.

Lemma running_step (n : nat) :
  (n < maxTicks)%nat -> running n ->
  (running (S n) /\ elapsed w0 tick n < maxWait) \/ timedOutAt n.
Proof.
  intros Hn (j & Hstate & Hrun).
  pose proof (repeats_short n j ltac:(lia) Hrun) as Hshort.
  unfold running, timedOutAt. simpl sessionAfter. rewrite Hstate.
  unfold wake. projections. cbn [app].
  destruct (resume_cases (tick n) (setCapturing true g)
              {| previousContent := previousSample tick n;
                 stableCount := j; startTime := Date_now w0 |})
    as [(_ & _ & Hth & _)|[(s' & E & Hh & Hprev & Ht0 & _ & Hcount)
                          |(e & E & Hh)]]; projections.
  - cbn [stableCount] in Hth. lia.
  - left. rewrite E. projections.
    unfold loopHead in Hh. rewrite valid in Hh. cbn [startTime negb] in Hh.
    fold (elapsed w0 tick n) in Hh.
    destruct (elapsed w0 tick n <? maxWait) eqn:Hlt; [|discriminate].
    apply Z.ltb_lt in Hlt. split; [|exact Hlt].
    exists (stableCount s'). split.
    + destruct s' as [p c t]. projections. simpl in Hprev, Ht0.
      now subst.
    + destruct Hcount as [H0|(HS & Hsame & Hne)]; [now left|].
      cbn [stableCount previousContent] in HS, Hsame.
      right. replace (S n - 1)%nat with n by lia.
      destruct n as [|n']; [simpl in Hsame; congruence|].
      simpl previousSample in Hsame.
      assert (Hj : (j <= n')%nat /\
                   forall i, (i <= j)%nat ->
                     currentContentOf (tick (n' - i))
                     = currentContentOf (tick n')).
      { destruct Hrun as [->|(Hlt' & _ & Hr)].
        - split; [lia|]. intros i Hi. assert (i = 0)%nat as -> by lia.
          now rewrite Nat.sub_0_r.
        - split; [lia|]. intros i Hi. specialize (Hr i Hi).
          now rewrite ?Nat.sub_succ, ?Nat.sub_0_r in Hr. }
      destruct Hj as [Hj1 Hj2]. rewrite HS.
      split; [lia|]. split; [exact Hne|].
      intros i Hi. destruct i as [|i]; [now rewrite Nat.sub_0_r|].
      rewrite Hsame. replace (S n' - S i)%nat with (n' - i)%nat by lia.
      apply Hj2. lia.
  - right. rewrite E. projections.
    unfold loopHead in Hh. rewrite valid in Hh. cbn [startTime negb] in Hh.
    fold (elapsed w0 tick n) in Hh.
    destruct (elapsed w0 tick n <? maxWait) eqn:Hlt; [discriminate|].
    injection Hh as <-. split; [reflexivity|].
    apply Z.ltb_ge in Hlt. exact Hlt.
Qed.

Lemma runs_or_times_out (n : nat) :
  (n <= maxTicks)%nat ->
  (running n /\ forall k, (k < n)%nat -> elapsed w0 tick k < maxWait) \/
  exists m, (m < n)%nat /\ timedOutAt m /\ running m /\
            forall k, (k < m)%nat -> elapsed w0 tick k < maxWait.
Proof.
  induction n as [|n IH]; intros Hn.
  - left. split; [|intros k Hk; lia].
    exists 0%nat. split; [reflexivity|now left].
  - destruct IH as [[Hrun Hbefore]|(m & Hm & Hout)]; [lia| |].
    + destruct (running_step n ltac:(lia) Hrun) as [[Hnext Hlt]|Hout].
      * left. split; [exact Hnext|].
        intros k Hk. destruct (Nat.eq_dec k n) as [->|]; [exact Hlt|].
        apply Hbefore. lia.
      * right. exists n. auto.
    + right. exists m. split; [lia|exact Hout].
Qed.

Lemma times_out :
  exists m, (m < maxTicks)%nat /\ timedOutAt m /\ running m /\
            forall k, (k < m)%nat -> elapsed w0 tick k < maxWait.
Proof.
  destruct (runs_or_times_out maxTicks (le_n _)) as [[_ Hbefore]|H];
    [|exact H].
  exfalso.
  pose proof (Hbefore (maxTicks - 1)%nat ltac:(vm_compute; lia)) as Hlt.
  pose proof (clock_advances (maxTicks - 1)) as Hge.
  change (maxTicks - 1)%nat with 1199%nat in *.
  unfold maxWait, checkInterval in *. lia.
Qed.
End Timeout.

(** C7.  Let a session start while none is active, in a context that stays
    valid, with every sleep lasting at least [checkInterval], on a page
    whose samples never form [stableThreshold] consecutive identical
    non-empty texts within the [maxTicks] = 1200 ticks that fit under
    [maxWait].  Then the session ends by the timeout: there is a tick [n],
    among the first 1200, at which the elapsed time has reached [maxWait]
    for the first time; up to it the session was sampling and had sent
    nothing, and in that tick's turn it leaves the loop through the loop
    condition, a normal return, with nothing sent, [isCapturing] cleared
    and the baseline untouched; it does nothing afterwards. *)
Theorem timeout_semantics (w0 : World) (g : Globals) (tick : nat -> World) :
  isCapturing g = false ->
  isContextValid w0 = true ->
  (forall k, isContextValid (tick k) = true) ->
  Date_now w0 + checkInterval <= Date_now (tick 0%nat) ->
  (forall k, Date_now (tick k) + checkInterval <= Date_now (tick (S k))) ->
  (forall k, (k + stableThreshold <= maxTicks)%nat -> ~ stableWindow tick k) ->
  exists start n,
    waitForStreamingComplete w0 g = Some start /\
    (n < maxTicks)%nat /\
    (forall m, (m <= n)%nat ->
       exists s, t_status (sessionAfter start tick m) = Sleeping s /\
                 t_sent (sessionAfter start tick m) = []) /\
    (forall k, (k < n)%nat -> elapsed w0 tick k < maxWait) /\
    maxWait <= elapsed w0 tick n /\
    sessionAfter start tick (S n)
    = {| t_globals := g; t_sent := []; t_status := Ended TimedOut |} /\
    (forall m, (S n <= m)%nat ->
       sessionAfter start tick m = sessionAfter start tick (S n)).
Proof.
  intros Hidle Hv0 Hvalid Hfirst Hsleeps Hunstable.
  destruct (times_out w0 g tick Hvalid Hfirst Hsleeps Hunstable)
    as (n & Hn & (Hout & Hceil) & (j & Hrun & _) & Hbefore).
  pose proof (waitForStreamingComplete_starts w0 g Hidle Hv0) as Hstart.
  eexists. exists n. split; [exact Hstart|].
  split; [exact Hn|]. split.
  { intros m Hm.
    destruct (session_sleeping w0 g _ tick n _ Hstart
                ltac:(rewrite Hrun; reflexivity)) as (_ & _ & _ & Hall).
    destruct (Hall m Hm) as [s Hs]. exists s. split; [exact Hs|].
    now destruct (session_sleeping w0 g _ tick m s Hstart Hs) as (_ & ? & _). }
  split; [exact Hbefore|]. split; [exact Hceil|].
  split.
  { rewrite Hout. destruct g as [base flag]. simpl in Hidle. subst flag.
    reflexivity. }
  intros m Hm. apply sessionAfter_ended with TimedOut; [|exact Hm].
  now rewrite Hout.
Qed.

Lemma flicker_sample (k : nat) :
  currentContentOf (flickerTicks k)
  = if Nat.even k then str "The answer is forty-two."
    else str "The answer is forty-three.".
Proof.
  unfold flickerTicks, currentContentOf. cbn [document liveWorld].
  destruct (Nat.even k); vm_compute; reflexivity.
Qed.

Lemma timeout_semantics_witness :
  exists n, (n < 1200)%nat /\
    sessionAfter (freshStart freshGlobals emptyDocument) flickerTicks (S n)
    = {| t_globals := freshGlobals; t_sent := []; t_status := Ended TimedOut |}.
Proof.
  destruct (timeout_semantics (liveWorld 0 emptyDocument) freshGlobals
              flickerTicks)
    as (start & n & Hstart & Hn & _ & _ & _ & Hend & _).
  - reflexivity.
  - reflexivity.
  - intros k. reflexivity.
  - vm_compute. discriminate.
  - intros k. unfold flickerTicks, liveWorld, checkInterval. cbn [Date_now]. lia.
  - intros k _ [_ Hsame]. specialize (Hsame 1%nat ltac:(unfold stableThreshold; lia)).
    rewrite !flicker_sample, Nat.add_1_r, Nat.even_succ, <- Nat.negb_even in Hsame.
    destruct (Nat.even k); vm_compute in Hsame; discriminate.
  - exists n. split; [exact Hn|].
    assert (E : start = freshStart freshGlobals emptyDocument).
    { unfold freshStart. rewrite Hstart. reflexivity. }
    rewrite <- E. exact Hend.
Defined.

(** ** Mutual exclusion *)

Lemma startCapture_capturing (w : World) (a : Agent) :
  isCapturing (globals a) = true -> startCapture w a = a.
Proof.
  intros H. unfold startCapture, waitForStreamingComplete. now rewrite H.
Qed.

Lemma checkForResponse_capturing (w : World) (node : Node) (a : Agent) :
  isCapturing (globals a) = true -> checkForResponse w node a = a.
Proof. intros H. unfold checkForResponse. now rewrite H. Qed.

Lemma checkAddedNodes_capturing (w : World) (mutation : MutationRecord)
  (a : Agent) :
  isCapturing (globals a) = true -> checkAddedNodes w mutation a = a.
Proof.
  intros H. unfold checkAddedNodes.
  destruct (type_childList mutation); [|reflexivity].
  induction (addedNodes mutation) as [|node nodes IH]; [reflexivity|].
  simpl fold_left. destruct (nodeType node =? ELEMENT_NODE); [|exact IH].
  now rewrite checkForResponse_capturing.
Qed.

Lemma observerCallback_capturing (w : World)
  (mutations : list MutationRecord) (a : Agent) :
  isCapturing (globals a) = true ->
  let a' := observerCallback w mutations a in
  sessions a' = sessions a /\ globals a' = globals a /\ outbox a' = outbox a.
Proof.
  intros H. unfold observerCallback.
  destruct (negb (isContextValid w)); [simpl; auto|].
  assert (E : fold_left (fun acc mutation => checkAddedNodes w mutation acc)
                mutations a = a).
  { induction mutations as [|m ms IH]; [reflexivity|].
    simpl fold_left. now rewrite checkAddedNodes_capturing. }
  simpl. rewrite E. auto.
Qed.

Lemma startCapture_exclusive (w : World) (a : Agent) :
  exclusive a -> exclusive (startCapture w a).
Proof.
  intros Hex. destruct (isCapturing (globals a)) eqn:Hcap.
  - now rewrite startCapture_capturing.
  - unfold startCapture.
    destruct (waitForStreamingComplete w (globals a)) as [t|] eqn:E;
      [|exact Hex].
    apply waitForStreamingComplete_invariant in E.
    unfold exclusive in *. unfold sessionInvariant in E. simpl.
    destruct (sessions a) as [|s0 [|s1 rest]]; [|congruence|contradiction].
    destruct (t_status t); simpl; apply E.
Qed.

Lemma checkForResponse_exclusive (w : World) (node : Node) (a : Agent) :
  exclusive a -> exclusive (checkForResponse w node a).
Proof.
  intros Hex. unfold checkForResponse.
  destruct (isCapturing (globals a)); [exact Hex|].
  destruct (existsb _ _); [now apply startCapture_exclusive|exact Hex].
Qed.

Lemma resume_flag (w : World) (g : Globals) (s : Session) :
  isCapturing g = true ->
  match t_status (resume w g s) with
  | Sleeping _ => isCapturing (t_globals (resume w g s)) = true
  | Ended _ => isCapturing (t_globals (resume w g s)) = false
  end.
Proof.
  intros H.
  destruct (resume_cases w g s) as [(_ & _ & _ & E)|[(s' & E & _)|(e & E & _)]];
    rewrite E; projections; auto.
Qed.

Lemma step_exclusive (a : Agent) (turn : World * Event) :
  exclusive a -> exclusive (step a turn).
Proof.
  intros Hex. destruct turn as [w ev].
  destruct ev as [message|i|i|mutations|]; simpl.
  - unfold onMessage. destruct message as [text| |]; try exact Hex.
    destruct (injectMessage_begin (document w) text) as [ops [err|el]];
      exact Hex.
  - unfold injectMessage_resume.
    destruct (nth_error (injections a) i) as [el|]; [|exact Hex].
    match goal with
    | |- exclusive (withInjections (startCapture w ?a1) _ _ _) =>
        assert (H1 : exclusive (startCapture w a1))
          by (apply startCapture_exclusive; exact Hex);
        exact H1
    end.
  - unfold session_resume.
    destruct (nth_error (sessions a) i) as [s|] eqn:Hi; [|exact Hex].
    unfold exclusive in *. simpl.
    destruct (sessions a) as [|s0 [|s1 rest]]; [|..|contradiction].
    + now destruct i.
    + destruct i as [|i]; [|now destruct i].
      injection Hi as ->. simpl. rewrite app_nil_r.
      pose proof (resume_flag w (globals a) s Hex) as Hf.
      destruct (t_status (resume w (globals a) s)); simpl; exact Hf.
  - destruct (observing a); [|exact Hex].
    unfold observerCallback.
    destruct (negb (isContextValid w)); [exact Hex|].
    revert a Hex. induction mutations as [|m ms IH]; intros a Hex; [exact Hex|].
    simpl fold_left. apply IH. unfold checkAddedNodes.
    destruct (type_childList m); [|exact Hex].
    clear IH. revert a Hex.
    induction (addedNodes m) as [|node nodes IHn]; intros a Hex; [exact Hex|].
    simpl fold_left. apply IHn.
    destruct (nodeType node =? ELEMENT_NODE); [|exact Hex].
    now apply checkForResponse_exclusive.
  - destruct (awaitingLoad a); [|exact Hex].
    unfold startObserving. destruct (negb (isContextValid w)); exact Hex.
Qed.

Lemma run_exclusive (w0 : World) (turns : list (World * Event)) :
  exclusive (run w0 turns).
Proof.
  unfold run.
  assert (H0 : exclusive (load w0)).
  { unfold load, startObserving.
    destruct (readyState_loading w0); [reflexivity|].
    destruct (negb (isContextValid w0)); reflexivity. }
  revert H0. generalize (load w0).
  induction turns as [|turn turns IH]; intros a Ha; [exact Ha|].
  simpl fold_left. apply IH. now apply step_exclusive.
Qed.

(** C2.  In every state the agent can reach, while [isCapturing] is true
    there is exactly one suspended sampling session, and a further start
    request is a no-op: [waitForStreamingComplete] returns at once without
    a session, whether it is called after a submission (line 93) or by the
    mutation observer (line 152, behind the guard of line 140); the
    sessions, the globals and the messages sent are what they were, so the
    overlapping triggers add no session and no RESPONSE_CAPTURED. *)
Theorem mutual_exclusion (w0 : World) (turns : list (World * Event))
  (w : World) :
  isCapturing (globals (run w0 turns)) = true ->
  let a := run w0 turns in
  (exists s, sessions a = [s]) /\
  waitForStreamingComplete w (globals a) = None /\
  startCapture w a = a /\
  (forall i, let a' := injectMessage_resume w i a in
     sessions a' = sessions a /\ globals a' = globals a
     /\ outbox a' = outbox a) /\
  (forall node, checkForResponse w node a = a) /\
  (forall mutations, let a' := step a (w, MutationsObserved mutations) in
     sessions a' = sessions a /\ globals a' = globals a
     /\ outbox a' = outbox a).
Proof.
  intros Hcap a. fold a in Hcap.
  pose proof (run_exclusive w0 turns) as Hex. fold a in Hex.
  split.
  { unfold exclusive in Hex.
    destruct (sessions a) as [|s [|s1 rest]]; [congruence|eauto|contradiction]. }
  split; [unfold waitForStreamingComplete; now rewrite Hcap|].
  split; [now apply startCapture_capturing|].
  split.
  { intros i. unfold injectMessage_resume.
    destruct (nth_error (injections a) i) as [el|]; [|simpl; auto].
    cbv zeta. rewrite startCapture_capturing by exact Hcap. simpl. auto. }
  split; [intros node; now apply checkForResponse_capturing|].
  intros mutations. simpl step.
  destruct (observing a); [|simpl; auto].
  now apply observerCallback_capturing.
Qed.

Lemma mutual_exclusion_witness :
  let a := run (liveWorld 0 askDocument) injectedTurns in
  isCapturing (globals a) = true /\
  step a (liveWorld 400 askDocument,
          MutationsObserved [{| type_childList := true;
                                addedNodes := [answerNode] |}]) = a /\
  sessions (step a (liveWorld 400 askDocument, SettleElapsed 0)) = sessions a.
Proof.
  pose proof (mutual_exclusion (liveWorld 0 askDocument) injectedTurns
                (liveWorld 400 askDocument)) as H.
  destruct H as (_ & _ & _ & Hinject & Hcheck & _).
  - vm_compute. reflexivity.
  - cbv zeta. split; [vm_compute; reflexivity|]. split.
    + simpl step.
      change (observing (run (liveWorld 0 askDocument) injectedTurns))
        with true.
      cbv iota. unfold observerCallback.
      change (negb (isContextValid (liveWorld 400 askDocument))) with false.
      cbv iota. simpl fold_left. unfold checkAddedNodes.
      cbn [type_childList addedNodes fold_left].
      change (nodeType answerNode =? ELEMENT_NODE) with true. cbv iota.
      apply Hcheck.
    + apply (Hinject 0%nat).
Defined.

(** The agent's only session is the one [sessionAfter] follows: started
    by a call of [waitForStreamingComplete] in an agent without a session
    and resumed by its timers, it leaves the agent with its globals, with
    itself as the suspended session while it sleeps, and with its messages
    added to the outbox. *)
Lemma agent_runs_session (a : Agent) (w0 : World) (start : Turn)
  (tick : nat -> World) (n : nat) :
  sessions a = [] ->
  waitForStreamingComplete w0 (globals a) = Some start ->
  let a' := fold_left step (tickTurns tick n) (startCapture w0 a) in
  globals a' = t_globals (sessionAfter start tick n) /\
  sessions a' = sleepers (t_status (sessionAfter start tick n)) /\
  outbox a' = outbox a ++ t_sent (sessionAfter start tick n).
Proof.
  intros Hnone Hstart. cbv zeta. induction n as [|n IH].
  - simpl. unfold startCapture. rewrite Hstart. simpl. now rewrite Hnone.
  - unfold tickTurns in *. rewrite seq_S, map_app, fold_left_app.
    cbn [map fold_left Nat.add step].
    destruct IH as (Hg & Hs & Ho).
    simpl sessionAfter. unfold session_resume, wake. rewrite Hs.
    destruct (t_status (sessionAfter start tick n)) as [s|e] eqn:Hst.
    + change (sleepers (Sleeping s)) with [s].
      cbn [nth_error firstn skipn app withSession globals sessions outbox].
      cbv zeta. projections.
      rewrite Hg, Ho, app_nil_r, app_assoc. auto.
    + change (sleepers (Ended e)) with (@nil Session) in *.
      cbn [nth_error]. rewrite Hst. auto.
Qed.

(** ** Snapshot queries *)

Lemma step_responses (d : Document) (a : Agent) (w : World) (ev : Event) :
  document w = d ->
  exists rs,
    responses (step a (w, ev)) = responses a ++ rs /\
    Forall (fun r => forall c, r = LatestResponse c -> c = getLatestResponse d)
      rs.
Proof.
  intros Hd. destruct ev as [message|i|i|mutations|]; simpl.
  - unfold onMessage. destruct message as [text| |].
    + destruct (injectMessage_begin (document w) text) as [ops [err|el]];
        simpl; eexists; split; try reflexivity.
      * constructor; [discriminate|constructor].
      * constructor.
    + simpl. eexists. split; [reflexivity|].
      constructor; [|constructor]. intros c [= <-]. now rewrite Hd.
    + exists []. split; [now rewrite app_nil_r|constructor].
  - unfold injectMessage_resume.
    destruct (nth_error (injections a) i) as [el|].
    + simpl. unfold startCapture.
      destruct (waitForStreamingComplete w _); simpl;
        rewrite app_nil_r; eexists; (split; [reflexivity|]);
        (constructor; [discriminate|constructor]).
    + exists []. split; [now rewrite app_nil_r|constructor].
  - unfold session_resume.
    destruct (nth_error (sessions a) i); simpl;
      exists []; (split; [now rewrite app_nil_r|constructor]).
  - exists []. split; [|constructor]. rewrite app_nil_r.
    destruct (observing a); [|reflexivity].
    unfold observerCallback.
    destruct (negb (isContextValid w)); [reflexivity|].
    assert (Hcheck : forall node b,
              responses (checkForResponse w node b) = responses b).
    { intros node b. unfold checkForResponse, startCapture.
      destruct (isCapturing (globals b)); [reflexivity|].
      destruct (existsb _ _); [|reflexivity].
      now destruct (waitForStreamingComplete w (globals b)). }
    revert a. induction mutations as [|m ms IH]; intros a; [reflexivity|].
    simpl fold_left. rewrite IH. unfold checkAddedNodes.
    destruct (type_childList m); [|reflexivity].
    generalize a. induction (addedNodes m) as [|node nodes IHn]; intros b;
      [reflexivity|].
    simpl fold_left. rewrite IHn.
    destruct (nodeType node =? ELEMENT_NODE); [apply Hcheck|reflexivity].
  - exists []. split; [|constructor]. rewrite app_nil_r.
    destruct (awaitingLoad a); [|reflexivity].
    unfold startObserving. now destruct (negb (isContextValid w)).
Qed.

(** C10.  A GET_LATEST_RESPONSE query is answered with [getLatestResponse]
    of the current document, a function of the document alone, and changes
    nothing in the agent but the list of responses.  Hence, over any
    sequence of turns on one and the same document [d], from any state of
    the agent, with or without a running session and whatever else happens
    in between (ticks of the session, triggers, injections, changes of the
    clock or of the extension context), every query is answered with the
    same content, [getLatestResponse d]. *)
Theorem snapshot_idempotent (d : Document) (a : Agent)
  (turns : list (World * Event)) :
  Forall (fun turn => document (fst turn) = d) turns ->
  (exists rs,
     responses (fold_left step turns a) = responses a ++ rs /\
     Forall (fun r => forall c, r = LatestResponse c -> c = getLatestResponse d)
       rs) /\
  (forall w b, document w = d ->
     let b' := step b (w, OnMessage GET_LATEST_RESPONSE) in
     responses b' = responses b ++ [LatestResponse (getLatestResponse d)] /\
     globals b' = globals b /\ sessions b' = sessions b /\
     injections b' = injections b /\ outbox b' = outbox b /\
     domLog b' = domLog b).
Proof.
  intros Hd. split.
  - revert a. induction turns as [|[w ev] turns IH]; intros a.
    + exists []. split; [now rewrite app_nil_r|constructor].
    + inversion Hd as [|? ? Hw Hrest]; subst.
      change (fold_left step ((w, ev) :: turns) a)
        with (fold_left step turns (step a (w, ev))).
      destruct (IH Hrest (step a (w, ev))) as (rs2 & E2 & F2).
      destruct (step_responses (document w) a w ev eq_refl) as (rs1 & E1 & F1).
      exists (rs1 ++ rs2). split.
      * now rewrite E2, E1, app_assoc.
      * apply Forall_app. auto.
  - intros w b Hw. simpl. rewrite Hw, app_nil_r. repeat split; reflexivity.
Qed.

Lemma snapshot_idempotent_witness :
  responses (fold_left step queryTurns
               (run (liveWorld 0 askDocument) injectedTurns))
  = [InjectResponse true None;
     LatestResponse (getLatestResponse askDocument);
     LatestResponse (getLatestResponse askDocument);
     LatestResponse (getLatestResponse askDocument)].
Proof.
  destruct (snapshot_idempotent askDocument
              (run (liveWorld 0 askDocument) injectedTurns) queryTurns)
    as [(rs & Hrs & Hall) _].
  - repeat constructor.
  - assert (E : responses (fold_left step queryTurns
                             (run (liveWorld 0 askDocument) injectedTurns))
                = [InjectResponse true None;
                   LatestResponse (Some answerText);
                   LatestResponse (Some answerText);
                   LatestResponse (Some answerText)])
      by (vm_compute; reflexivity).
    rewrite E in Hrs |- *.
    change (responses (run (liveWorld 0 askDocument) injectedTurns))
      with [InjectResponse true None] in Hrs.
    injection Hrs as <-.
    inversion Hall as [|r1 l1 H1 Hall1]; subst.
    inversion Hall1 as [|r2 l2 H2 Hall2]; subst.
    inversion Hall2 as [|r3 l3 H3 _]; subst.
    now rewrite <- (H1 _ eq_refl).
Defined.

(** ** The agent at work *)

Example trim_strips_both_ends :
  trim (10%N :: 32%N :: str "The answer  ") = str "The answer".
Proof. vm_compute. reflexivity. Qed.

Example latest_answer_is_the_last_one :
  getLatestResponse twoAnswersDocument = Some answerText.
Proof. vm_compute. reflexivity. Qed.

Example injection_writes_the_textarea :
  injectMessage_begin askDocument (str "hello")
  = ([Focus askInput; SetValue askInput (str "hello"); DispatchInput askInput],
     InjectAwaiting askInput).
Proof. vm_compute. reflexivity. Qed.

Example injected_message_is_captured :
  let a := fold_left step captureTurns
             (run (liveWorld 0 askDocument) injectedTurns) in
  outbox a = [CONTENT_SCRIPT_READY AI_TYPE; RESPONSE_CAPTURED AI_TYPE answerText]
  /\ globals a = {| lastCapturedContent := answerText; isCapturing := false |}
  /\ sessions a = []
  /\ domLog a = [Focus askInput; SetValue askInput (str "hello");
                 DispatchInput askInput; DispatchKeydownEnter askInput].
Proof. vm_compute. repeat split; reflexivity. Qed.

(** ** What the other callbacks leave alone *)

Lemma startCapture_frame (w : World) (a : Agent) :
  responses (startCapture w a) = responses a /\
  injections (startCapture w a) = injections a /\
  domLog (startCapture w a) = domLog a /\
  observing (startCapture w a) = observing a /\
  awaitingLoad (startCapture w a) = awaitingLoad a.
Proof.
  unfold startCapture.
  destruct (waitForStreamingComplete w (globals a)); simpl; auto.
Qed.

Lemma checkForResponse_frame (w : World) (node : Node) (a : Agent) :
  responses (checkForResponse w node a) = responses a /\
  injections (checkForResponse w node a) = injections a /\
  domLog (checkForResponse w node a) = domLog a /\
  observing (checkForResponse w node a) = observing a /\
  awaitingLoad (checkForResponse w node a) = awaitingLoad a.
Proof.
  unfold checkForResponse. destruct (isCapturing (globals a)); auto.
  destruct (existsb _ _); auto. apply startCapture_frame.
Qed.

Lemma checkAddedNodes_frame (w : World) (mutation : MutationRecord)
  (a : Agent) :
  responses (checkAddedNodes w mutation a) = responses a /\
  injections (checkAddedNodes w mutation a) = injections a /\
  domLog (checkAddedNodes w mutation a) = domLog a /\
  observing (checkAddedNodes w mutation a) = observing a /\
  awaitingLoad (checkAddedNodes w mutation a) = awaitingLoad a.
Proof.
  unfold checkAddedNodes. destruct (type_childList mutation); auto.
  revert a. induction (addedNodes mutation) as [|node nodes IH]; intros a;
    simpl fold_left; auto.
  destruct (IH (if nodeType node =? ELEMENT_NODE
                then checkForResponse w node a else a))
    as (H1 & H2 & H3 & H4 & H5).
  rewrite H1, H2, H3, H4, H5.
  destruct (nodeType node =? ELEMENT_NODE); auto.
  apply checkForResponse_frame.
Qed.

Lemma checkMutations_frame (w : World) (mutations : list MutationRecord)
  (a : Agent) :
  let a' := fold_left (fun acc mutation => checkAddedNodes w mutation acc)
              mutations a in
  responses a' = responses a /\ injections a' = injections a /\
  domLog a' = domLog a /\ observing a' = observing a /\
  awaitingLoad a' = awaitingLoad a.
Proof.
  cbv zeta. revert a. induction mutations as [|m ms IH]; intros a;
    simpl fold_left; auto.
  destruct (IH (checkAddedNodes w m a)) as (H1 & H2 & H3 & H4 & H5).
  rewrite H1, H2, H3, H4, H5. apply checkAddedNodes_frame.
Qed.

(** Only the listener and the settle timer touch the responses, the
    pending injections and the page. *)
Lemma step_frame (a : Agent) (w : World) (ev : Event) :
  match ev with
  | OnMessage _ | SettleElapsed _ => True
  | _ => responses (step a (w, ev)) = responses a /\
         injections (step a (w, ev)) = injections a /\
         domLog (step a (w, ev)) = domLog a
  end.
Proof.
  destruct ev as [message|i|i|mutations|]; simpl; auto.
  - unfold session_resume. destruct (nth_error (sessions a) i); simpl; auto.
  - destruct (observing a); auto. unfold observerCallback.
    destruct (negb (isContextValid w)); simpl; auto.
    destruct (checkMutations_frame w mutations a) as (H1 & H2 & H3 & _).
    auto.
  - destruct (awaitingLoad a); auto. unfold startObserving.
    destruct (negb (isContextValid w)); simpl; auto.
Qed.

Lemma length_remove_nth {A : Type} (l : list A) (i : nat) (x : A) :
  nth_error l i = Some x ->
  S (List.length (firstn i l ++ skipn (S i) l)) = List.length l.
Proof.
  revert i. induction l as [|y l IH]; intros [|i] H; simpl in *;
    try discriminate.
  - reflexivity.
  - now rewrite (IH i H).
Qed.

Lemma injectResponses_app (xs ys : list Response) :
  injectResponses (xs ++ ys) = (injectResponses xs + injectResponses ys)%nat.
Proof. unfold injectResponses. now rewrite filter_app, length_app. Qed.

Lemma step_answers (a : Agent) (turn : World * Event) :
  (injectResponses (responses (step a turn))
   + List.length (injections (step a turn)))%nat
  = (injectResponses (responses a) + List.length (injections a)
     + (if isInjectRequest turn then 1 else 0))%nat.
Proof.
  destruct turn as [w ev].
  destruct ev as [message|i|i|mutations|].
  - unfold isInjectRequest. simpl. unfold onMessage.
    destruct message as [text| |].
    + destruct (injectMessage_begin (document w) text) as [ops [err|el]];
        simpl; rewrite ?injectResponses_app, ?length_app; simpl;
        unfold injectResponses; simpl; lia.
    + simpl. rewrite injectResponses_app. unfold injectResponses. simpl. lia.
    + lia.
  - unfold isInjectRequest. simpl. unfold injectMessage_resume.
    destruct (nth_error (injections a) i) as [el|] eqn:Hi; [|lia].
    match goal with
    | |- context [startCapture w ?a1] =>
        destruct (startCapture_frame w a1) as (H1 & H2 & _)
    end.
    cbv zeta. cbn [withInjections responses injections]. rewrite H1, H2.
    cbn [withInjections responses injections].
    rewrite !app_nil_r, injectResponses_app.
    pose proof (length_remove_nth _ _ _ Hi) as Hlen.
    change (injectResponses [InjectResponse true None]) with 1%nat. lia.
  - pose proof (step_frame a w (IntervalElapsed i)) as (H1 & H2 & _).
    rewrite H1, H2. unfold isInjectRequest. simpl. lia.
  - pose proof (step_frame a w (MutationsObserved mutations)) as (H1 & H2 & _).
    rewrite H1, H2. unfold isInjectRequest. simpl. lia.
  - pose proof (step_frame a w DOMContentLoaded) as (H1 & H2 & _).
    rewrite H1, H2. unfold isInjectRequest. simpl. lia.
Qed.

(** X1.  Every INJECT_MESSAGE request is answered exactly once or is still
    waiting for its settle delay: after any run of the agent, the number of
    injection answers passed to [sendResponse] plus the number of
    injections suspended at line 81 is the number of INJECT_MESSAGE
    requests received. *)
Theorem every_injection_answered_once (w0 : World)
  (turns : list (World * Event)) :
  (injectResponses (responses (run w0 turns))
   + List.length (injections (run w0 turns)))%nat
  = injectRequests turns.
Proof.
  unfold run, injectRequests.
  assert (H0 : (injectResponses (responses (load w0))
                + List.length (injections (load w0)))%nat = 0%nat).
  { unfold load, startObserving.
    destruct (readyState_loading w0); [reflexivity|].
    destruct (negb (isContextValid w0)); reflexivity. }
  assert (G : forall a,
            (injectResponses (responses (fold_left step turns a))
             + List.length (injections (fold_left step turns a)))%nat
            = (injectResponses (responses a) + List.length (injections a)
               + List.length (filter isInjectRequest turns))%nat).
  { induction turns as [|turn turns IH]; intros a; simpl fold_left.
    - simpl. lia.
    - rewrite IH, step_answers. simpl filter.
      destruct (isInjectRequest turn); simpl; lia. }
  rewrite G, H0. reflexivity.
Qed.

(** ** The page log *)

Lemma split_app {A : Type} (log ops l1 l2 : list A) (x : A) :
  log ++ ops = l1 ++ x :: l2 ->
  (exists l2', log = l1 ++ x :: l2' /\ l2 = l2' ++ ops) \/
  (exists l1', l1 = log ++ l1' /\ ops = l1' ++ x :: l2).
Proof.
  intros H. apply app_eq_app in H as [l [[H1 H2]|[H1 H2]]].
  - destruct l as [|y l].
    + right. exists []. rewrite app_nil_r in H1. simpl in H2. subst. 
      split; [now rewrite app_nil_r|reflexivity].
    + left. simpl in H2. injection H2 as <- ->. now exists l.
  - right. now exists l.
Qed.

Lemma enterFollowsFocus_app (log ops : list DomOp) :
  enterFollowsFocus log ->
  (forall l1 el l2, ops = l1 ++ DispatchKeydownEnter el :: l2 ->
     In (Focus el) (log ++ l1)) ->
  enterFollowsFocus (log ++ ops).
Proof.
  intros Hlog Hops l1 el l2 E.
  apply split_app in E as [(l2' & E & _)|(l1' & -> & E)].
  - now apply Hlog with l2'.
  - now apply Hops with l2.
Qed.

Lemma In_remove_nth {A : Type} (l : list A) (i : nat) (x : A) :
  In x (firstn i l ++ skipn (S i) l) -> In x l.
Proof.
  revert i. induction l as [|y l IH]; intros [|i]; simpl; auto.
  - intros [H|H]; auto. right. now apply IH with i.
Qed.

Lemma injectMessage_begin_ops (doc : Document) (text : jsstring) :
  match injectMessage_begin doc text with
  | (ops, InjectThrew _) => ops = []
  | (ops, InjectAwaiting inputEl) =>
      exists writes,
        ops = Focus inputEl :: writes /\
        (writes = [] \/
         writes = [SetValue inputEl text; DispatchInput inputEl] \/
         writes = [SetTextContent inputEl text; DispatchInput inputEl])
  end.
Proof.
  unfold injectMessage_begin.
  destruct (resolveInput inputSelectors doc) as [el|]; [|reflexivity].
  destruct (String.eqb (tagName el) "TEXTAREA");
    [|destruct (isContentEditable el)]; eexists; (split; [reflexivity|]);
    auto.
Qed.

Lemma no_enter_in_begin (doc : Document) (text : jsstring)
  (l1 l2 : list DomOp) (el : Element) :
  fst (injectMessage_begin doc text) <> l1 ++ DispatchKeydownEnter el :: l2.
Proof.
  pose proof (injectMessage_begin_ops doc text) as H.
  destruct (injectMessage_begin doc text) as [ops [err|inputEl]]; simpl.
  - subst. now destruct l1.
  - destruct H as (writes & -> & [ -> | [ -> | -> ] ]);
      destruct l1 as [|? [|? [|? [|? l1]]]]; simpl; discriminate.
Qed.

Lemma step_enterFollowsFocus (a : Agent) (turn : World * Event) :
  enterFollowsFocus (domLog a) /\
  Forall (fun el => In (Focus el) (domLog a)) (injections a) ->
  enterFollowsFocus (domLog (step a turn)) /\
  Forall (fun el => In (Focus el) (domLog (step a turn)))
    (injections (step a turn)).
Proof.
  intros [Hlog Hinj]. destruct turn as [w ev].
  destruct ev as [message|i|i|mutations|].
  - simpl. unfold onMessage. destruct message as [text| |].
    + pose proof (no_enter_in_begin (document w) text) as Hno.
      pose proof (injectMessage_begin_ops (document w) text) as Hops.
      destruct (injectMessage_begin (document w) text) as [ops [err|el]];
        simpl in *.
      * subst ops. rewrite app_nil_r. auto.
      * split.
        -- apply enterFollowsFocus_app; [exact Hlog|].
           intros l1 e l2 E. now apply Hno in E.
        -- apply Forall_app. split.
           ++ eapply Forall_impl; [|exact Hinj].
              intros e He. apply in_or_app. now left.
           ++ constructor; [|constructor].
              destruct Hops as (writes & -> & _).
              apply in_or_app. right. now left.
    + simpl. rewrite app_nil_r. auto.
    + auto.
  - simpl. unfold injectMessage_resume.
    destruct (nth_error (injections a) i) as [el|] eqn:Hi; [|auto].
    match goal with
    | |- context [startCapture w ?a1] =>
        destruct (startCapture_frame w a1) as (_ & H2 & H3 & _)
    end.
    cbv zeta. cbn [withInjections domLog injections]. rewrite H2, H3.
    cbn [withInjections domLog injections]. rewrite app_nil_r.
    assert (Hel : In (Focus el) (domLog a)).
    { apply nth_error_In in Hi. rewrite Forall_forall in Hinj. auto. }
    split.
    + apply enterFollowsFocus_app; [exact Hlog|].
      intros l1 e l2 E. destruct l1 as [|? l1]; simpl in E.
      * injection E as <- _. now rewrite app_nil_r.
      * injection E as _ E. now destruct l1.
    + rewrite Forall_forall in *. intros e He.
      apply In_remove_nth in He. apply in_or_app. left. auto.
  - pose proof (step_frame a w (IntervalElapsed i)) as (_ & H2 & H3).
    now rewrite H2, H3.
  - pose proof (step_frame a w (MutationsObserved mutations)) as (_ & H2 & H3).
    now rewrite H2, H3.
  - pose proof (step_frame a w DOMContentLoaded) as (_ & H2 & H3).
    now rewrite H2, H3.
Qed.

Lemma load_domLog (w0 : World) :
  domLog (load w0) = [] /\ injections (load w0) = [] /\ responses (load w0) = [].
Proof.
  unfold load, startObserving. destruct (readyState_loading w0); auto.
  destruct (negb (isContextValid w0)); auto.
Qed.

(** X2.  The Enter key is only ever dispatched on an element the script
    focused earlier: in the page log of any run, every keydown of Enter is
    preceded by a focus of the same element, and every injection still
    waiting for its settle delay holds an element already focused. *)
Theorem enter_only_after_focus (w0 : World) (turns : list (World * Event)) :
  enterFollowsFocus (domLog (run w0 turns)) /\
  Forall (fun el => In (Focus el) (domLog (run w0 turns)))
    (injections (run w0 turns)).
Proof.
  unfold run.
  assert (H0 : enterFollowsFocus (domLog (load w0)) /\
               Forall (fun el => In (Focus el) (domLog (load w0)))
                 (injections (load w0))).
  { destruct (load_domLog w0) as (-> & -> & _). split; [|constructor].
    intros l1 el l2 E. now destruct l1. }
  revert H0. generalize (load w0).
  induction turns as [|turn turns IH]; intros a Ha; [exact Ha|].
  simpl fold_left. apply IH. now apply step_enterFollowsFocus.
Qed.

Lemma writesNotified_app (log ops : list DomOp) :
  writesNotified log -> writesNotified ops -> writesNotified (log ++ ops).
Proof.
  intros Hlog Hops l1 op l2 E.
  apply split_app in E as [(l2' & E & ->)|(l1' & -> & E)].
  - specialize (Hlog _ _ _ E).
    destruct op; auto; destruct Hlog as (r & ->); eexists; reflexivity.
  - exact (Hops _ _ _ E).
Qed.

Lemma writesNotified_begin (doc : Document) (text : jsstring) :
  writesNotified (fst (injectMessage_begin doc text)).
Proof.
  pose proof (injectMessage_begin_ops doc text) as H.
  destruct (injectMessage_begin doc text) as [ops [err|inputEl]]; simpl.
  - subst. intros l1 op l2 E. now destruct l1.
  - destruct H as (writes & -> & [ -> | [ -> | -> ] ]); intros l1 op l2 E;
      destruct l1 as [|? [|? [|? [|? l1]]]]; simpl in E;
      try discriminate E;
      injection E; intros; subst; simpl;
      try exact I; eexists; reflexivity.
Qed.

(** X3.  No direct property write goes unannounced: in the page log of any
    run, every assignment of [value] or of [textContent] is immediately
    followed by the synthetic input event dispatched on the same element. *)
Theorem every_write_is_notified (w0 : World) (turns : list (World * Event)) :
  writesNotified (domLog (run w0 turns)).
Proof.
  unfold run.
  assert (H0 : writesNotified (domLog (load w0))).
  { destruct (load_domLog w0) as (-> & _). intros l1 op l2 E. now destruct l1. }
  revert H0. generalize (load w0).
  induction turns as [|[w ev] turns IH]; intros a Ha; [exact Ha|].
  change (fold_left step ((w, ev) :: turns) a)
    with (fold_left step turns (step a (w, ev))).
  apply IH.
  destruct ev as [message|i|i|mutations|].
  - simpl. unfold onMessage. destruct message as [text| |]; auto.
    + pose proof (writesNotified_begin (document w) text) as Hb.
      destruct (injectMessage_begin (document w) text) as [ops [err|el]];
        simpl in *; now apply writesNotified_app.
    + simpl. now rewrite app_nil_r.
  - simpl. unfold injectMessage_resume.
    destruct (nth_error (injections a) i) as [el|]; [|exact Ha].
    match goal with
    | |- context [startCapture w ?a1] =>
        destruct (startCapture_frame w a1) as (_ & _ & H3 & _)
    end.
    cbv zeta. cbn [withInjections domLog]. rewrite H3.
    cbn [withInjections domLog]. rewrite app_nil_r.
    apply writesNotified_app; [exact Ha|].
    intros l1 op l2 E. destruct l1 as [|? l1]; simpl in E.
    + now injection E as <- _.
    + injection E as _ E. now destruct l1.
  - pose proof (step_frame a w (IntervalElapsed i)) as (_ & _ & H3).
    now rewrite H3.
  - pose proof (step_frame a w (MutationsObserved mutations)) as (_ & _ & H3).
    now rewrite H3.
  - pose proof (step_frame a w DOMContentLoaded) as (_ & _ & H3).
    now rewrite H3.
Qed.

(** ** The mutation observer *)

Lemma checkMutations_capturing (w : World) (mutations : list MutationRecord)
  (a : Agent) :
  isCapturing (globals a) = true ->
  fold_left (fun acc mutation => checkAddedNodes w mutation acc) mutations a
  = a.
Proof.
  intros H. induction mutations as [|m ms IH]; [reflexivity|].
  simpl fold_left. now rewrite checkAddedNodes_capturing.
Qed.

Lemma startCapture_idle (w : World) (a : Agent) :
  isCapturing (globals a) = false -> isContextValid w = true ->
  startCapture w a
  = withSession a (setCapturing true (globals a))
      (sessions a ++ [newSession w]) [].
Proof.
  intros Hidle Hv. unfold startCapture.
  now rewrite (waitForStreamingComplete_starts w (globals a) Hidle Hv).
Qed.

Lemma checkAddedNodes_idle (w : World) (mutation : MutationRecord)
  (a : Agent) :
  isCapturing (globals a) = false -> isContextValid w = true ->
  checkAddedNodes w mutation a
  = if mutationTriggers mutation then startCapture w a else a.
Proof.
  intros Hidle Hv. unfold checkAddedNodes, mutationTriggers.
  destruct (type_childList mutation); [|reflexivity]. cbn [andb].
  induction (addedNodes mutation) as [|node nodes IH]; [reflexivity|].
  simpl fold_left. cbn [existsb]. unfold nodeTriggers at 1.
  destruct (nodeType node =? ELEMENT_NODE); cbn [andb orb]; [|exact IH].
  unfold checkForResponse at 2. rewrite Hidle.
  destruct (existsb _ responseSelectors); cbn [orb]; [|exact IH].
  pose proof (checkAddedNodes_capturing w
                {| type_childList := true; addedNodes := nodes |}
                (startCapture w a)) as Hc.
  unfold checkAddedNodes in Hc. cbn [type_childList addedNodes] in Hc.
  apply Hc. now rewrite startCapture_idle.
Qed.

(** X4.  While no session is active and the context is valid, the
    observer's callback starts a capture exactly when some childList
    mutation adds an element node that matches, or contains a match of, one
    of the three response selectors; and however many nodes and mutations
    qualify, it starts one session only, suspended with an empty previous
    sample and a count of 0, and sends nothing.  Other nodes (text nodes,
    elements without a match) and other mutation types leave the agent
    untouched. *)
Theorem observer_starts_one_session (w : World)
  (mutations : list MutationRecord) (a : Agent) :
  isCapturing (globals a) = false ->
  isContextValid w = true ->
  let a' := observerCallback w mutations a in
  (existsb mutationTriggers mutations = true ->
   globals a' = setCapturing true (globals a) /\
   sessions a' = sessions a ++ [newSession w] /\
   outbox a' = outbox a) /\
  (existsb mutationTriggers mutations = false -> a' = a).
Proof.
  intros Hidle Hv. cbv zeta. unfold observerCallback. rewrite Hv. cbn [negb].
  assert (E : fold_left (fun acc mutation => checkAddedNodes w mutation acc)
                mutations a
              = if existsb mutationTriggers mutations
                then startCapture w a else a).
  { revert a Hidle. induction mutations as [|m ms IH]; intros a Hidle;
      [reflexivity|].
    simpl fold_left. cbn [existsb].
    rewrite checkAddedNodes_idle by assumption.
    destruct (mutationTriggers m); cbn [orb]; [|now apply IH].
    apply checkMutations_capturing. now rewrite startCapture_idle. }
  rewrite E. split; intros Hex; rewrite Hex; [|reflexivity].
  rewrite startCapture_idle by assumption. simpl. now rewrite app_nil_r.
Qed.

Lemma observer_starts_one_session_witness :
  sessions (observerCallback (liveWorld 700 askDocument) answerMutations
              (load (liveWorld 0 askDocument)))
  = [newSession (liveWorld 700 askDocument)].
Proof.
  destruct (observer_starts_one_session (liveWorld 700 askDocument)
              answerMutations (load (liveWorld 0 askDocument)))
    as [Hstart _].
  - reflexivity.
  - reflexivity.
  - destruct Hstart as (_ & Hs & _); [vm_compute; reflexivity|].
    exact Hs.
Defined.

Lemma step_observer (a : Agent) (turn : World * Event) :
  (observing a = true -> awaitingLoad a = false) ->
  (observing (step a turn) = true -> awaitingLoad (step a turn) = false) /\
  (observing a = false -> awaitingLoad a = false ->
   observing (step a turn) = false /\ awaitingLoad (step a turn) = false).
Proof.
  intros Hinv. destruct turn as [w ev].
  destruct ev as [message|i|i|mutations|]; simpl.
  - unfold onMessage. destruct message as [text| |]; auto.
    destruct (injectMessage_begin (document w) text) as [ops [err|el]];
      simpl; auto.
  - unfold injectMessage_resume.
    destruct (nth_error (injections a) i) as [el|]; auto.
    match goal with
    | |- context [startCapture w ?a1] =>
        destruct (startCapture_frame w a1) as (_ & _ & _ & H4 & H5)
    end.
    cbv zeta. cbn [withInjections observing awaitingLoad]. rewrite H4, H5.
    cbn [withInjections observing awaitingLoad]. auto.
  - unfold session_resume. destruct (nth_error (sessions a) i); simpl; auto.
  - destruct (observing a) eqn:Hobs.
    + unfold observerCallback. destruct (negb (isContextValid w)).
      * simpl. split; [discriminate|auto].
      * destruct (checkMutations_frame w mutations a)
          as (_ & _ & _ & H4 & H5).
        rewrite H4, H5, Hobs. split; [auto|discriminate].
    + rewrite Hobs. split; [discriminate|auto].
  - destruct (awaitingLoad a) eqn:Haw.
    + unfold startObserving. destruct (negb (isContextValid w)); simpl;
        (split; [auto|intros _; discriminate]).
    + rewrite Haw. split; auto.
Qed.

Lemma run_observer (w0 : World) (turns : list (World * Event)) :
  observing (run w0 turns) = true -> awaitingLoad (run w0 turns) = false.
Proof.
  unfold run.
  assert (H0 : observing (load w0) = true -> awaitingLoad (load w0) = false).
  { unfold load, startObserving. destruct (readyState_loading w0);
      [discriminate|]. destruct (negb (isContextValid w0)); reflexivity. }
  revert H0. generalize (load w0).
  induction turns as [|turn turns IH]; intros a Ha; [exact Ha|].
  simpl fold_left. apply IH. now apply step_observer.
Qed.

Lemma detached_stays (turns : list (World * Event)) (b : Agent) :
  observing b = false -> awaitingLoad b = false ->
  observing (fold_left step turns b) = false /\
  awaitingLoad (fold_left step turns b) = false.
Proof.
  revert b. induction turns as [|turn turns IH]; intros b Ho Ha; [auto|].
  simpl fold_left.
  destruct (step_observer b turn) as [_ H]; [congruence|].
  destruct (H Ho Ha). now apply IH.
Qed.

(** X5.  The observer detaches for good.  When its callback runs in a turn
    that finds the context invalid, it disconnects without looking at the
    mutations: sessions, globals and outbox are untouched.  From then on,
    whatever happens, it is never attached again, and no later batch of
    mutations changes anything, even one that adds an answer in a context
    that looks valid. *)
Theorem observer_detaches_for_good (w0 : World)
  (before : list (World * Event)) (w : World)
  (mutations : list MutationRecord) :
  observing (run w0 before) = true ->
  isContextValid w = false ->
  let a := run w0 before in
  let b := step a (w, MutationsObserved mutations) in
  observing b = false /\
  globals b = globals a /\ sessions b = sessions a /\ outbox b = outbox a /\
  forall later,
    observing (fold_left step later b) = false /\
    forall w' mutations',
      step (fold_left step later b) (w', MutationsObserved mutations')
      = fold_left step later b.
Proof.
  intros Hobs Hv a b.
  pose proof (run_observer w0 before Hobs) as Haw. fold a in Hobs, Haw.
  assert (Eb : b = withObserver a false (awaitingLoad a)).
  { unfold b. simpl. rewrite Hobs. unfold observerCallback. now rewrite Hv. }
  rewrite Eb. simpl. repeat split; auto.
  - apply detached_stays; simpl; auto.
  - intros w' mutations'. simpl.
    destruct (detached_stays later (withObserver a false (awaitingLoad a)))
      as [Ho _]; simpl; auto.
    now rewrite Ho.
Qed.

Lemma observer_detaches_for_good_witness :
  sessions (fold_left step
              [ (deadWorld 500 askDocument, MutationsObserved answerMutations);
                (liveWorld 600 askDocument, DOMContentLoaded);
                (liveWorld 700 askDocument, MutationsObserved answerMutations) ]
              (run (liveWorld 0 askDocument) []))
  = [].
Proof.
  destruct (observer_detaches_for_good (liveWorld 0 askDocument) []
              (deadWorld 500 askDocument) answerMutations)
    as (_ & _ & Hs & _ & Hlater).
  - reflexivity.
  - reflexivity.
  - destruct (Hlater [(liveWorld 600 askDocument, DOMContentLoaded)])
      as [_ Hsame].
    change (fold_left step
              [ (deadWorld 500 askDocument, MutationsObserved answerMutations);
                (liveWorld 600 askDocument, DOMContentLoaded);
                (liveWorld 700 askDocument, MutationsObserved answerMutations) ]
              (run (liveWorld 0 askDocument) []))
      with (step (fold_left step
                    [(liveWorld 600 askDocument, DOMContentLoaded)]
                    (step (run (liveWorld 0 askDocument) [])
                       (deadWorld 500 askDocument,
                        MutationsObserved answerMutations)))
              (liveWorld 700 askDocument, MutationsObserved answerMutations)).
    rewrite Hsame. vm_compute. reflexivity.
Defined.

(** ** What is sent *)

Lemma trimStart_head (s : jsstring) :
  match trimStart s with
  | [] => True
  | c :: _ => isWhiteSpace c = false
  end.
Proof.
  induction s as [|c s IH]; simpl; [exact I|].
  destruct (isWhiteSpace c) eqn:E; [exact IH|exact E].
Qed.

Lemma trimStart_prefix (s : jsstring) :
  exists p, s = p ++ trimStart s.
Proof.
  induction s as [|c s [p IH]]; simpl; [now exists []|].
  destruct (isWhiteSpace c); [|now exists []].
  exists (c :: p). simpl. now rewrite <- IH.
Qed.

Lemma trim_noOuterWhiteSpace (raw : jsstring) : noOuterWhiteSpace (trim raw).
Proof.
  unfold trim, trimEnd.
  pose proof (trimStart_head raw) as Ht.
  destruct (trimStart_prefix (rev (trimStart raw))) as (p & Hp).
  pose proof (trimStart_head (rev (trimStart raw))) as Hu.
  destruct (trimStart (rev (trimStart raw))) as [|c u'] eqn:Eu;
    [exact I|].
  assert (Hrev : trimStart raw = rev (c :: u') ++ rev p).
  { now rewrite <- rev_app_distr, <- Hp, rev_involutive. }
  simpl rev in *. unfold noOuterWhiteSpace.
  remember (rev u' ++ [c]) as v eqn:Ev.
  destruct v as [|c0 w]; [destruct (rev u'); discriminate|].
  split.
  - rewrite Hrev in Ht. exact Ht.
  - rewrite Ev, last_last. exact Hu.
Qed.

Lemma getLatestResponse_trimmed (doc : Document) (text : jsstring) :
  getLatestResponse doc = Some text ->
  (10 < List.length text)%nat /\ noOuterWhiteSpace text.
Proof.
  intros H. split; [now apply getLatestResponse_long with doc|].
  unfold getLatestResponse in H.
  apply getLatestResponseIn_Some in H as (b & s & a & _ & _ & H).
  apply acceptedText_Some in H as (f & e & raw & _ & _ & -> & _).
  apply trim_noOuterWhiteSpace.
Qed.

(** A resumed session either sends nothing, or it completes in a healthy
    turn and sends the text that [getLatestResponse] reads there. *)
Lemma resume_sends_snapshot (w : World) (g : Globals) (s : Session) :
  (t_sent (resume w g s) = [] /\
   (healthy w = true ->
    lastCapturedContent (t_globals (resume w g s)) = lastCapturedContent g
    \/ False))
  \/
  (exists c,
     getLatestResponse (document w) = Some c /\
     t_sent (resume w g s) = [RESPONSE_CAPTURED AI_TYPE c] /\
     lastCapturedContent (t_globals (resume w g s)) = c /\
     isCapturing (t_globals (resume w g s)) = false /\
     c <> lastCapturedContent g /\
     healthy w = true).
Proof.
  destruct (resume_cases w g s)
    as [(_ & Hne & _ & E)|[(s' & E & _)|(e & E & _)]];
    rewrite E; projections; auto.
  destruct (jseqb (currentContentOf w) (lastCapturedContent g)) eqn:Hb; auto.
  apply jseqb_neq in Hb. unfold safeSendMessage, healthy.
  destruct (currentContentOf_cases w) as [H0|[Hget _]]; [contradiction|].
  destruct (isContextValid w); cbn [negb andb].
  2:{ left. split; [reflexivity|discriminate]. }
  destruct (sendMessage_throws w); cbn [negb].
  1:{ left. split; [reflexivity|discriminate]. }
  right. exists (currentContentOf w). repeat split; auto.
Qed.

Lemma waitForStreamingComplete_baseline (w : World) (g : Globals) (t : Turn) :
  waitForStreamingComplete w g = Some t ->
  lastCapturedContent (t_globals t) = lastCapturedContent g.
Proof.
  unfold waitForStreamingComplete. destruct (isCapturing g); [discriminate|].
  intros [= <-]. unfold toNextSleep, finally. projections.
  destruct (loopHead w _); reflexivity.
Qed.

Lemma startCapture_quiet (w : World) (a : Agent) :
  outbox (startCapture w a) = outbox a /\
  lastCapturedContent (globals (startCapture w a))
  = lastCapturedContent (globals a).
Proof.
  split; [apply startCapture_outbox|].
  unfold startCapture.
  destruct (waitForStreamingComplete w (globals a)) as [t|] eqn:E;
    [|reflexivity].
  simpl. now apply waitForStreamingComplete_baseline with w.
Qed.

Lemma observerCallback_quiet (w : World) (mutations : list MutationRecord)
  (a : Agent) :
  outbox (observerCallback w mutations a) = outbox a /\
  lastCapturedContent (globals (observerCallback w mutations a))
  = lastCapturedContent (globals a).
Proof.
  unfold observerCallback. destruct (negb (isContextValid w)); [simpl; auto|].
  revert a. induction mutations as [|m ms IH]; intros a; simpl fold_left;
    [auto|].
  destruct (IH (checkAddedNodes w m a)) as [H1 H2]. rewrite H1, H2.
  unfold checkAddedNodes. destruct (type_childList m); [|auto].
  generalize a. induction (addedNodes m) as [|node nodes IHn]; intros b;
    simpl fold_left; [auto|].
  destruct (IHn (if nodeType node =? ELEMENT_NODE
                 then checkForResponse w node b else b)) as [H3 H4].
  rewrite H3, H4. destruct (nodeType node =? ELEMENT_NODE); [|auto].
  unfold checkForResponse. destruct (isCapturing (globals b)); [auto|].
  destruct (existsb _ _); [apply startCapture_quiet|auto].
Qed.

(** What one turn of the agent adds to the outbox. *)
Lemma step_outbox (a : Agent) (w : World) (ev : Event) :
  (outbox (step a (w, ev)) = outbox a /\
   (healthy w = true ->
    lastCapturedContent (globals (step a (w, ev)))
    = lastCapturedContent (globals a)))
  \/
  (exists c,
     getLatestResponse (document w) = Some c /\
     outbox (step a (w, ev)) = outbox a ++ [RESPONSE_CAPTURED AI_TYPE c] /\
     lastCapturedContent (globals (step a (w, ev))) = c /\
     isCapturing (globals (step a (w, ev))) = false /\
     c <> lastCapturedContent (globals a) /\
     healthy w = true).
Proof.
  destruct ev as [message|i|i|mutations|]; simpl.
  - left. unfold onMessage. destruct message as [text| |]; auto.
    destruct (injectMessage_begin (document w) text) as [ops [err|el]]; auto.
  - left. unfold injectMessage_resume.
    destruct (nth_error (injections a) i) as [el|]; auto.
    match goal with
    | |- context [startCapture w ?a1] =>
        destruct (startCapture_quiet w a1) as [H1 H2]
    end.
    cbv zeta. cbn [withInjections outbox globals]. rewrite H1, H2. auto.
  - unfold session_resume.
    destruct (nth_error (sessions a) i) as [s|]; [|auto].
    cbn [withSession outbox globals].
    destruct (resume_sends_snapshot w (globals a) s)
      as [[E Hb]|(c & Hget & E & Hbase & Hflag & Hne & Hh)]; rewrite E.
    + left. rewrite app_nil_r. split; [reflexivity|].
      intros Hh. now destruct (Hb Hh).
    + right. exists c. auto 10.
  - left. destruct (observing a); [|auto].
    destruct (observerCallback_quiet w mutations a) as [H1 H2].
    rewrite H1, H2. auto.
  - left. destruct (awaitingLoad a); [|auto].
    unfold startObserving. destruct (negb (isContextValid w)); auto.
Qed.

(** X6.  Everything the agent ever sends to the background script: the
    one CONTENT_SCRIPT_READY of line 28, first, if the context was valid
    and the channel worked when the script was loaded, and after it only
    RESPONSE_CAPTURED messages tagged "perplexity", each carrying a text of
    more than 10 code units with no white space at either end. *)
Theorem outbox_shape (w0 : World) (turns : list (World * Event)) :
  exists contents,
    outbox (run w0 turns)
    = safeSendMessage w0 (CONTENT_SCRIPT_READY AI_TYPE)
      ++ map (RESPONSE_CAPTURED AI_TYPE) contents /\
    Forall (fun c => (10 < List.length c)%nat /\ noOuterWhiteSpace c) contents.
Proof.
  assert (G : forall turns a cs,
            outbox a = safeSendMessage w0 (CONTENT_SCRIPT_READY AI_TYPE)
                       ++ map (RESPONSE_CAPTURED AI_TYPE) cs ->
            Forall (fun c => (10 < List.length c)%nat /\ noOuterWhiteSpace c) cs ->
            exists contents,
              outbox (fold_left step turns a)
              = safeSendMessage w0 (CONTENT_SCRIPT_READY AI_TYPE)
                ++ map (RESPONSE_CAPTURED AI_TYPE) contents /\
              Forall (fun c => (10 < List.length c)%nat /\ noOuterWhiteSpace c)
                contents).
  { clear turns. induction turns as [|[w ev] turns IH]; intros a cs Ha Hcs.
    - exists cs. auto.
    - change (fold_left step ((w, ev) :: turns) a)
        with (fold_left step turns (step a (w, ev))).
      destruct (step_outbox a w ev) as [[E _]|(c & Hget & E & _)].
      + apply (IH _ cs); [now rewrite E|exact Hcs].
      + apply (IH _ (cs ++ [c])).
        * now rewrite E, Ha, map_app, app_assoc.
        * apply Forall_app. split; [exact Hcs|].
          constructor; [|constructor].
          now apply getLatestResponse_trimmed with (document w). }
  unfold run. apply (G turns (load w0) []); [|constructor].
  simpl map. rewrite app_nil_r. unfold load, startObserving.
  destruct (readyState_loading w0); [reflexivity|].
  destruct (negb (isContextValid w0)); reflexivity.
Qed.

(** X7.  A turn of the agent sends at most one message, and only the
    continuation of a sampling session sends any.  When a turn sends, the
    message is a RESPONSE_CAPTURED whose content is what
    [getLatestResponse] reads on the page in that very turn, so that a
    GET_LATEST_RESPONSE query handled right after it is answered with the
    same text; the context is valid and the channel works, the text
    differs from the previous baseline and is the new one, and no session
    is active any more. *)
Theorem turn_sends_the_snapshot (a : Agent) (w : World) (ev : Event) :
  let a' := step a (w, ev) in
  outbox a' = outbox a \/
  exists c,
    outbox a' = outbox a ++ [RESPONSE_CAPTURED AI_TYPE c] /\
    (exists i, ev = IntervalElapsed i) /\
    responses (step a' (w, OnMessage GET_LATEST_RESPONSE))
    = responses a' ++ [LatestResponse (Some c)] /\
    lastCapturedContent (globals a') = c /\
    c <> lastCapturedContent (globals a) /\
    isCapturing (globals a') = false /\
    healthy w = true.
Proof.
  cbv zeta.
  destruct (step_outbox a w ev)
    as [[E _]|(c & Hget & E & Hbase & Hflag & Hne & Hh)]; [now left|].
  right. exists c. split; [exact E|]. split.
  { destruct ev as [message|i|i|mutations|]; eauto; exfalso.
    - simpl in E. unfold onMessage in E. destruct message as [text| |].
      + destruct (injectMessage_begin (document w) text) as [ops [err|el]];
          simpl in E; apply (f_equal (@List.length Message)) in E;
          rewrite length_app in E; simpl in E; lia.
      + simpl in E. apply (f_equal (@List.length Message)) in E.
        rewrite length_app in E. simpl in E. lia.
      + apply (f_equal (@List.length Message)) in E.
        rewrite length_app in E. simpl in E. lia.
    - simpl in E. unfold injectMessage_resume in E.
      destruct (nth_error (injections a) i) as [el|].
      + cbv zeta in E. cbn [withInjections outbox] in E.
        rewrite startCapture_outbox in E. cbn [withInjections outbox] in E.
        apply (f_equal (@List.length Message)) in E.
        rewrite length_app in E. simpl in E. lia.
      + apply (f_equal (@List.length Message)) in E.
        rewrite length_app in E. simpl in E. lia.
    - simpl in E. destruct (observing a).
      + destruct (observerCallback_quiet w mutations a) as [H1 _].
        rewrite H1 in E. apply (f_equal (@List.length Message)) in E.
        rewrite length_app in E. simpl in E. lia.
      + apply (f_equal (@List.length Message)) in E.
        rewrite length_app in E. simpl in E. lia.
    - simpl in E. destruct (awaitingLoad a).
      + unfold startObserving in E.
        destruct (negb (isContextValid w)); simpl in E;
          apply (f_equal (@List.length Message)) in E;
          rewrite length_app in E; simpl in E; lia.
      + apply (f_equal (@List.length Message)) in E.
        rewrite length_app in E. simpl in E. lia. }
  split; [|auto].
  change (responses (step (step a (w, ev)) (w, OnMessage GET_LATEST_RESPONSE)))
    with (responses (step a (w, ev))
          ++ [LatestResponse (getLatestResponse (document w))]).
  now rewrite Hget.
Qed.

Lemma capturedContents_app (xs ys : list Message) :
  capturedContents (xs ++ ys) = capturedContents xs ++ capturedContents ys.
Proof.
  induction xs as [|[t|t c] xs IH]; simpl; auto. now rewrite IH.
Qed.

Lemma adjacentDistinct_snoc (l : list jsstring) (c : jsstring) :
  adjacentDistinct l -> (l <> [] -> last l [] <> c) ->
  adjacentDistinct (l ++ [c]).
Proof.
  induction l as [|x [|y r] IH]; intros Hl Hc.
  - exact I.
  - simpl. split; [|exact I]. apply Hc. discriminate.
  - destruct Hl as [Hxy Hr].
    change (x <> y /\ adjacentDistinct ((y :: r) ++ [c])).
    split; [exact Hxy|]. apply IH; [exact Hr|].
    intros _. apply Hc. discriminate.
Qed.

(** X8.  While the context is valid and the channel works, the agent never
    reports the same text twice in a row, however often capture is
    triggered again on an unchanged answer: over any run whose turns are
    all healthy, two consecutive RESPONSE_CAPTURED messages carry different
    contents, and [lastCapturedContent] is the content of the last one
    sent (the empty string before the first). *)
Theorem no_text_reported_twice_in_a_row (w0 : World)
  (turns : list (World * Event)) :
  Forall (fun turn => healthy (fst turn) = true) turns ->
  adjacentDistinct (capturedContents (outbox (run w0 turns))) /\
  lastCapturedContent (globals (run w0 turns))
  = last (capturedContents (outbox (run w0 turns))) [].
Proof.
  unfold run.
  assert (H0 : adjacentDistinct (capturedContents (outbox (load w0))) /\
               lastCapturedContent (globals (load w0))
               = last (capturedContents (outbox (load w0))) []).
  { assert (E : capturedContents (outbox (load w0)) = []
                /\ lastCapturedContent (globals (load w0)) = []).
    { unfold load, startObserving, safeSendMessage.
      destruct (readyState_loading w0); destruct (negb (isContextValid w0));
        destruct (sendMessage_throws w0); auto. }
    destruct E as [-> ->]. simpl. auto. }
  revert H0. generalize (load w0).
  induction turns as [|[w ev] turns IH]; intros a Ha Hh; [exact Ha|].
  inversion Hh as [|? ? Hw Hrest]; subst. simpl in Hw.
  change (fold_left step ((w, ev) :: turns) a)
    with (fold_left step turns (step a (w, ev))).
  apply IH; [|exact Hrest]. destruct Ha as [Hadj Hbase].
  destruct (step_outbox a w ev)
    as [[E Hsame]|(c & _ & E & Hnew & _ & Hne & _)]; rewrite E.
  - split; [exact Hadj|]. now rewrite (Hsame Hw).
  - rewrite capturedContents_app. simpl capturedContents.
    split.
    + apply adjacentDistinct_snoc; [exact Hadj|].
      intros _. rewrite <- Hbase. auto.
    + now rewrite last_last.
Qed.

Lemma no_text_reported_twice_in_a_row_witness :
  adjacentDistinct
    (capturedContents
       (outbox (run (liveWorld 0 askDocument) repeatedCaptureTurns))) /\
  capturedContents
    (outbox (run (liveWorld 0 askDocument) repeatedCaptureTurns))
  = [answerText].
Proof.
  destruct (no_text_reported_twice_in_a_row (liveWorld 0 askDocument)
              repeatedCaptureTurns) as [Hadj _].
  - repeat constructor.
  - split; [exact Hadj|]. vm_compute. reflexivity.
Defined.

(** ** How long and how early *)

(** A session that sleeps again after its [n]-th sample passed the loop
    head of that turn. *)
Lemma sleeping_passed_head (w0 : World) (g : Globals) (start : Turn)
  (tick : nat -> World) (n : nat) (s : Session) :
  waitForStreamingComplete w0 g = Some start ->
  t_status (sessionAfter start tick (S n)) = Sleeping s ->
  exists s0,
    t_status (sessionAfter start tick n) = Sleeping s0 /\
    sessionAfter start tick (S n)
    = resume (tick n) (setCapturing true g) s0 /\
    startTime s0 = Date_now w0 /\
    loopHead (tick n) s0 = None.
Proof.
  intros Hstart HS.
  destruct (session_sleeping _ _ _ _ _ _ Hstart HS) as (_ & _ & _ & Hall).
  destruct (Hall n ltac:(lia)) as [s0 Hs0].
  destruct (session_sleeping _ _ _ _ _ _ Hstart Hs0) as (Hg & Hsent & Ht0 & _).
  exists s0. split; [exact Hs0|].
  assert (E : sessionAfter start tick (S n)
              = resume (tick n) (setCapturing true g) s0).
  { simpl sessionAfter. unfold wake. rewrite Hs0, Hsent, Hg. cbn [app].
    now destruct (resume _ _ _). }
  split; [exact E|]. split; [exact Ht0|].
  rewrite E in HS.
  destruct (resume_cases (tick n) (setCapturing true g) s0)
    as [(_ & _ & _ & E')|[(s' & E' & Hh & _)|(e & E' & _)]];
    rewrite E' in HS; projections; try discriminate. exact Hh.
Qed.

Lemma maxTicks_value : maxTicks = 1200%nat.
Proof. vm_compute. reflexivity. Qed.

(** X9.  A session never outlives the ceiling, whatever the page shows and
    whatever happens to the context: once one of its samples is taken
    [maxWait] or more after its start, at tick [K] say, the session has
    ended by the end of that turn; it has released the flag and sent at
    most one message, the agent it ran in is idle again, and a later
    trigger in a valid context starts a new session.  When every sleep
    lasts at least [checkInterval], tick [maxTicks - 1], the 1200th, is
    such a tick at the latest. *)
Theorem session_ends_by_the_ceiling (a : Agent) (w0 : World) (start : Turn)
  (tick : nat -> World) (K N : nat) :
  sessions a = [] ->
  waitForStreamingComplete w0 (globals a) = Some start ->
  maxWait <= Date_now (tick K) - Date_now w0 ->
  (S K <= N)%nat ->
  (exists e, t_status (sessionAfter start tick N) = Ended e) /\
  (captured (t_sent (sessionAfter start tick N)) <= 1)%nat /\
  isCapturing
    (globals (fold_left step (tickTurns tick N) (startCapture w0 a))) = false /\
  sessions (fold_left step (tickTurns tick N) (startCapture w0 a)) = [] /\
  (forall w, isContextValid w = true ->
     sessions (startCapture w
                 (fold_left step (tickTurns tick N) (startCapture w0 a)))
     = [newSession w]) /\
  (Date_now w0 + checkInterval <= Date_now (tick 0%nat) ->
   (forall k, Date_now (tick k) + checkInterval <= Date_now (tick (S k))) ->
   maxWait <= Date_now (tick (maxTicks - 1)%nat) - Date_now w0).
Proof.
  intros Hnone Hstart Hceil HN.
  assert (HK : exists e, t_status (sessionAfter start tick (S K)) = Ended e).
  { destruct (t_status (sessionAfter start tick (S K))) as [s|e] eqn:Hst;
      [exfalso|eauto].
    destruct (sleeping_passed_head _ _ _ _ _ _ Hstart Hst)
      as (s0 & _ & _ & Ht0 & Hh).
    unfold loopHead in Hh. rewrite Ht0 in Hh.
    destruct (Date_now (tick K) - Date_now w0 <? maxWait) eqn:Hlt;
      [|discriminate].
    apply Z.ltb_lt in Hlt. lia. }
  destruct HK as [e HK].
  pose proof (sessionAfter_ended start tick (S K) N e HK HN) as Hsame.
  assert (He : t_status (sessionAfter start tick N) = Ended e)
    by now rewrite Hsame.
  pose proof (session_invariant w0 (globals a) start tick N Hstart) as Hi.
  unfold sessionInvariant in Hi. rewrite He in Hi. destruct Hi as [Hcap Hflag].
  destruct (agent_runs_session a w0 start tick N Hnone Hstart)
    as (Hg & Hs & _).
  rewrite He in Hs. change (sleepers (Ended e)) with (@nil Session) in Hs.
  split; [eauto|]. split; [exact Hcap|].
  split; [now rewrite Hg|]. split; [exact Hs|]. split.
  - intros w Hv. rewrite startCapture_idle; [|now rewrite Hg|exact Hv].
    cbn [withSession sessions]. now rewrite Hs.
  - intros Hfirst Hsleeps.
    pose proof (clock_advances w0 tick Hfirst Hsleeps (maxTicks - 1)) as Hge.
    pose proof maxTicks_value as Hm.
    unfold elapsed, maxWait, checkInterval in *. lia.
Qed.

Lemma session_ends_by_the_ceiling_witness :
  isCapturing
    (globals (fold_left step (tickTurns lateTicks 3)
                (startCapture (liveWorld 0 askDocument)
                   (load (liveWorld 0 askDocument))))) = false.
Proof.
  destruct (session_ends_by_the_ceiling (load (liveWorld 0 askDocument))
              (liveWorld 0 askDocument)
              (freshStart freshGlobals askDocument) lateTicks 2 3)
    as (_ & _ & Hidle & _).
  - reflexivity.
  - reflexivity.
  - vm_compute. discriminate.
  - lia.
  - exact Hidle.
Defined.

(** What the locals of a sleeping session mean: [previousContent] is the
    last sample, and a count of [j] > 0 says that the last [j + 1] samples
    are one non-empty text. *)
Lemma sleeping_meaning (w0 : World) (g : Globals) (start : Turn)
  (tick : nat -> World) (n : nat) :
  waitForStreamingComplete w0 g = Some start ->
  forall s, t_status (sessionAfter start tick n) = Sleeping s ->
  previousContent s = previousSample tick n /\
  (stableCount s < stableThreshold)%nat /\
  (stableCount s = 0%nat \/
   ((stableCount s < n)%nat /\
    currentContentOf (tick (n - 1)%nat) <> [] /\
    forall i, (i <= stableCount s)%nat ->
      currentContentOf (tick (n - 1 - i)%nat)
      = currentContentOf (tick (n - 1)%nat))).
Proof.
  intros Hstart. induction n as [|n IH]; intros s Hs.
  - simpl sessionAfter in Hs. revert Hs. generalize Hstart.
    unfold waitForStreamingComplete.
    destruct (isCapturing g); [discriminate|]. intros [= <-].
    unfold toNextSleep, finally. projections.
    destruct (loopHead w0 _); projections; [discriminate|].
    intros [= <-]. simpl. unfold stableThreshold. repeat split; auto; lia.
  - destruct (sleeping_passed_head _ _ _ _ _ _ Hstart Hs)
      as (s0 & Hs0 & E & _ & _).
    destruct (IH s0 Hs0) as (Hprev0 & _ & Hrun).
    rewrite E in Hs.
    destruct (resume_cases (tick n) (setCapturing true g) s0)
      as [(_ & _ & _ & E')|[(s' & E' & _ & Hprev & _ & Hlt & Hcount)
                           |(e & E' & _)]];
      rewrite E' in Hs; projections; try discriminate.
    injection Hs as <-.
    split; [exact Hprev|]. split; [exact Hlt|].
    destruct Hcount as [H0|(HS & Hsame & Hne)]; [now left|].
    right. replace (S n - 1)%nat with n by lia.
    rewrite Hprev0 in Hsame.
    destruct n as [|n']; [simpl in Hsame; congruence|].
    simpl previousSample in Hsame.
    assert (Hj : (stableCount s0 <= n')%nat /\
                 forall i, (i <= stableCount s0)%nat ->
                   currentContentOf (tick (n' - i)%nat)
                   = currentContentOf (tick n')).
    { destruct Hrun as [->|(Hlt' & _ & Hr)].
      - split; [lia|]. intros i Hi. assert (i = 0)%nat as -> by lia.
        now rewrite Nat.sub_0_r.
      - split; [lia|]. intros i Hi. specialize (Hr i Hi).
        now rewrite ?Nat.sub_succ, ?Nat.sub_0_r in Hr. }
    destruct Hj as [Hj1 Hj2]. rewrite HS.
    split; [lia|]. split; [exact Hne|].
    intros i Hi. destruct i as [|i]; [now rewrite Nat.sub_0_r|].
    rewrite Hsame. replace (S n' - S i)%nat with (n' - i)%nat by lia.
    apply Hj2. lia.
Qed.

(** X10.  Completion never fires early.  If a session completes at tick
    [n] (counted from 0), then the page has been sampled at least
    [stableThreshold + 1] = 5 times, the samples of the last 5 ticks are one
    and the same text, and that text is longer than 10 code units; the
    count stood at [stableThreshold - 1] before the tick. *)
Theorem completion_needs_five_equal_samples (w0 : World) (g : Globals)
  (start : Turn) (tick : nat -> World) (n : nat) (s : Session) :
  waitForStreamingComplete w0 g = Some start ->
  t_status (sessionAfter start tick n) = Sleeping s ->
  t_status (sessionAfter start tick (S n)) = Ended Stabilised ->
  (stableThreshold <= n)%nat /\
  S (stableCount s) = stableThreshold /\
  (10 < List.length (currentContentOf (tick n)))%nat /\
  forall i, (i <= stableThreshold)%nat ->
    currentContentOf (tick (n - i)%nat) = currentContentOf (tick n).
Proof.
  intros Hstart Hs Hend.
  destruct (session_sleeping _ _ _ _ _ _ Hstart Hs) as (Hg & Hsent & _ & _).
  destruct (sleeping_meaning _ _ _ tick n Hstart s Hs) as (Hprev & Hlt & Hrun).
  assert (E : sessionAfter start tick (S n)
              = resume (tick n) (setCapturing true g) s).
  { simpl sessionAfter. unfold wake. rewrite Hs, Hsent, Hg. cbn [app].
    now destruct (resume _ _ _). }
  rewrite E in Hend.
  destruct (resume_cases (tick n) (setCapturing true g) s)
    as [(Hsame & Hne & Hth & _)|[(s' & E' & _)|(e & E' & Hh)]];
    try (rewrite E' in Hend; projections; try discriminate).
  2:{ injection Hend as ->. now apply loopHead_not_stabilised in Hh. }
  unfold stableThreshold in *.
  destruct Hrun as [H0|(Hn & _ & Hrep)]; [lia|].
  rewrite Hprev in Hsame.
  destruct n as [|n']; [lia|]. simpl previousSample in Hsame.
  rewrite Nat.sub_succ, Nat.sub_0_r in Hrep.
  split; [lia|]. split; [lia|]. split.
  - destruct (currentContentOf_cases (tick (S n'))) as [H0|[_ Hl]];
      [contradiction|exact Hl].
  - intros i Hi. destruct i as [|i]; [now rewrite Nat.sub_0_r|].
    rewrite Nat.sub_succ, Hsame. apply Hrep. lia.
Qed.

Lemma completion_needs_five_equal_samples_witness :
  currentContentOf (streamTicks constantStream 0%nat)
  = currentContentOf (streamTicks constantStream 4%nat) /\
  (10 < List.length (currentContentOf (streamTicks constantStream 4%nat)))%nat.
Proof.
  destruct (completion_needs_five_equal_samples (liveWorld 0 emptyDocument)
              freshGlobals (freshStart freshGlobals emptyDocument)
              (streamTicks constantStream) 4 almostStable)
    as (_ & _ & Hlong & Hall).
  - reflexivity.
  - vm_compute. reflexivity.
  - vm_compute. reflexivity.
  - split; [|exact Hlong].
    apply (Hall 4%nat). unfold stableThreshold. lia.
Defined.

(** ** A whole injection *)

Lemma remove_last_nth {A : Type} (l : list A) (x : A) :
  nth_error (l ++ [x]) (List.length l) = Some x /\
  firstn (List.length l) (l ++ [x]) ++ skipn (S (List.length l)) (l ++ [x]) = l.
Proof.
  split.
  - rewrite nth_error_app2, Nat.sub_diag by lia. reflexivity.
  - rewrite firstn_app, firstn_all, Nat.sub_diag. cbn [firstn].
    rewrite skipn_all2 by (rewrite length_app; simpl; lia).
    now rewrite !app_nil_r.
Qed.

(** X11.  An injection from request to answer.  On a page where some input
    candidate matches, with [el] the element resolved, an INJECT_MESSAGE
    request followed by the end of its settle delay focuses [el], writes
    the text (into [value] for a TEXTAREA, else into [textContent] for a
    content-editable element, each write followed by the input event; an
    element that is neither is not written to), dispatches Enter on [el]
    and answers [{success: true}], leaving no injection pending.  The
    answer does not depend on the capture: while a session is active none
    is added, and when none is active and the context is valid exactly one
    is started. *)
Theorem injection_from_request_to_answer (a : Agent) (w1 w2 : World)
  (text : jsstring) (el : Element) :
  resolveInput inputSelectors (document w1) = Some el ->
  let a1 := step a (w1, OnMessage (INJECT_MESSAGE text)) in
  let a2 := step a1 (w2, SettleElapsed (List.length (injections a))) in
  responses a1 = responses a /\
  responses a2 = responses a ++ [InjectResponse true None] /\
  injections a2 = injections a /\
  (exists writes,
     domLog a2 = domLog a ++ Focus el :: writes ++ [DispatchKeydownEnter el] /\
     (tagName el = "TEXTAREA"%string ->
      writes = [SetValue el text; DispatchInput el]) /\
     (tagName el <> "TEXTAREA"%string -> isContentEditable el = true ->
      writes = [SetTextContent el text; DispatchInput el]) /\
     (tagName el <> "TEXTAREA"%string -> isContentEditable el = false ->
      writes = [])) /\
  (isCapturing (globals a) = true ->
   globals a2 = globals a /\ sessions a2 = sessions a) /\
  (isCapturing (globals a) = false -> isContextValid w2 = true ->
   globals a2 = setCapturing true (globals a) /\
   sessions a2 = sessions a ++ [newSession w2]).
Proof.
  intros Hel. cbv zeta.
  set (writes := if String.eqb (tagName el) "TEXTAREA"
                 then [SetValue el text; DispatchInput el]
                 else if isContentEditable el
                 then [SetTextContent el text; DispatchInput el]
                 else []).
  assert (E1 : step a (w1, OnMessage (INJECT_MESSAGE text))
               = withInjections a (injections a ++ [el]) []
                   (Focus el :: writes)).
  { simpl. unfold onMessage, injectMessage_begin. rewrite Hel. reflexivity. }
  rewrite E1.
  destruct (remove_last_nth (injections a) el) as [Hnth Hrest].
  set (a1 := withInjections a (injections a ++ [el]) [] (Focus el :: writes)).
  set (b := withInjections a1 (injections a) [] [DispatchKeydownEnter el]).
  assert (E2 : step a1 (w2, SettleElapsed (List.length (injections a)))
               = withInjections (startCapture w2 b)
                   (injections (startCapture w2 b))
                   [InjectResponse true None] []).
  { simpl. unfold injectMessage_resume.
    change (injections a1) with (injections a ++ [el]).
    rewrite Hnth, Hrest. reflexivity. }
  rewrite E2.
  destruct (startCapture_frame w2 b) as (Hr & Hi & Hd & _).
  cbn [withInjections responses injections domLog globals sessions].
  rewrite Hr, Hi, Hd.
  split; [subst a1; simpl; now rewrite app_nil_r|].
  split; [subst b a1; simpl; now rewrite !app_nil_r|].
  split; [reflexivity|].
  split.
  { exists writes. split.
    - subst b a1. simpl. rewrite !app_nil_r, <- app_assoc. reflexivity.
    - subst writes. repeat split.
      + intros Ht. rewrite Ht. reflexivity.
      + intros Ht He. apply String.eqb_neq in Ht. now rewrite Ht, He.
      + intros Ht He. apply String.eqb_neq in Ht. now rewrite Ht, He. }
  split.
  - intros Hcap. rewrite startCapture_capturing by exact Hcap. auto.
  - intros Hidle Hv. rewrite startCapture_idle by assumption. auto.
Qed.

Lemma injection_from_request_to_answer_witness :
  let a := run (liveWorld 0 editableDocument)
             [ (liveWorld 100 editableDocument,
                OnMessage (INJECT_MESSAGE (str "hello")));
               (deadWorld 300 editableDocument, SettleElapsed 0) ] in
  responses a = [InjectResponse true None] /\
  domLog a = [Focus editableInput; SetTextContent editableInput (str "hello");
              DispatchInput editableInput; DispatchKeydownEnter editableInput].
Proof.
  destruct (injection_from_request_to_answer
              (load (liveWorld 0 editableDocument))
              (liveWorld 100 editableDocument)
              (deadWorld 300 editableDocument) (str "hello") editableInput)
    as (_ & Hr & _ & (writes & Hd & _ & Hed & _) & _).
  - vm_compute. reflexivity.
  - cbv zeta. split; [exact Hr|].
    rewrite Hed in Hd; [exact Hd|vm_compute; discriminate|reflexivity].
Defined.

(** X12.  A start request in a turn that finds the context invalid does
    nothing at all: the call sets [isCapturing], leaves the loop at the
    check of line 174 before its first sleep and clears the flag on the way
    out, so the agent is exactly what it was, with no session and nothing
    sent.  Together with the guard of line 159, a start request has an
    effect only when no session is active and the context is valid. *)
Theorem start_in_invalid_context_is_void (w : World) (a : Agent) :
  isContextValid w = false ->
  startCapture w a = a /\
  forall node, checkForResponse w node a = a.
Proof.
  intros Hv.
  assert (E : startCapture w a = a).
  { unfold startCapture, waitForStreamingComplete.
    destruct (isCapturing (globals a)) eqn:Hcap; [reflexivity|].
    unfold toNextSleep, finally. projections.
    destruct (loopHead_invalid w (newSession w) Hv) as [e He].
    unfold newSession in He. rewrite He. projections.
    destruct a as [[base flag] ss inj obs aw out rs log].
    simpl in Hcap. subst flag. unfold withSession, setCapturing. simpl.
    now rewrite !app_nil_r. }
  split; [exact E|].
  intros node. unfold checkForResponse.
  destruct (isCapturing (globals a)); [reflexivity|].
  destruct (existsb _ _); [exact E|reflexivity].
Qed.

Lemma start_in_invalid_context_is_void_witness :
  step (load (liveWorld 0 askDocument))
    (deadWorld 300 askDocument, SettleElapsed 0)
  = load (liveWorld 0 askDocument) /\
  startCapture (deadWorld 300 askDocument) (load (liveWorld 0 askDocument))
  = load (liveWorld 0 askDocument).
Proof.
  destruct (start_in_invalid_context_is_void (deadWorld 300 askDocument)
              (load (liveWorld 0 askDocument))) as [E _].
  - reflexivity.
  - split; [vm_compute; reflexivity|exact E].
Defined.

(** ** Only the latest element counts *)

Lemma lastElementText_lastOf (elements : list Element) :
  lastElementText elements
  = match lastOf elements with
    | Some lastElement => option_map trim (innerText lastElement)
    | None => None
    end.
Proof.
  unfold lastElementText, lastOf. destruct elements as [|e es]; reflexivity.
Qed.

(** X13.  The sample depends on the page only through the rendered text of
    the last element of each candidate: two pages on which, for every
    selector of the list, the last matching elements have the same
    [innerText] (or there is none on either) give the same result, whatever
    earlier elements, earlier answers among them, they contain and however
    they differ otherwise. *)
Theorem sample_reads_last_elements_only (selectors : list string)
  (doc doc' : Document) :
  (forall selector, In selector selectors ->
     option_map innerText (lastOf (querySelectorAll doc selector))
     = option_map innerText (lastOf (querySelectorAll doc' selector))) ->
  getLatestResponseIn selectors doc = getLatestResponseIn selectors doc'.
Proof.
  induction selectors as [|s rest IH]; intros H; [reflexivity|].
  simpl. rewrite IH by (intros s' Hs'; apply H; now right).
  assert (E : acceptedText (querySelectorAll doc s)
              = acceptedText (querySelectorAll doc' s)).
  { unfold acceptedText. rewrite !lastElementText_lastOf.
    specialize (H s (or_introl eq_refl)).
    destruct (lastOf (querySelectorAll doc s)) as [e|],
             (lastOf (querySelectorAll doc' s)) as [e'|];
      simpl in H; try discriminate; [|reflexivity].
    injection H as ->. reflexivity. }
  now rewrite E.
Qed.

Lemma sample_reads_last_elements_only_witness :
  getLatestResponse twoAnswersDocument
  = getLatestResponse
      (proseDocument (10%N :: 32%N :: str "The answer is forty-two.  ")).
Proof.
  apply (sample_reads_last_elements_only responseTextSelectors).
  intros selector Hs. simpl in Hs.
  destruct Hs as [<-|[<-|[<-|[<-|[<-|[]]]]]]; vm_compute; reflexivity.
Defined.
